(** * KNN model utilities of the Energy Landscape Analysis package

    A shallow embedding of [ela/modelUtilities.py].  Data frames live in a
    store and are passed by reference, as Python passes them; calls to the
    collaborators (scikit-learn's [KNeighborsClassifier], matplotlib, folium
    and the rest of [ela]) are recorded in a trace, so that statements about
    which calls happen, and in which order, can be made.  Floating point
    values are represented by exact rationals. *)

From Stdlib Require Import QArith Lqa.
From stdpp Require Import gmap strings list fin_maps.

Local Close Scope Q_scope.
Local Open Scope string_scope.
Local Open Scope list_scope.
Local Open Scope nat_scope.

(** ** Values *)

(** The content of one data frame cell: a number, a string (energy types are
    strings) or a (latitude, longitude) tuple as held by the ['centers']
    column. *)
Inductive cell :=
| CNum (q : Q)
| CStr (s : string)
| CPair (a b : Q).

(** Elementwise [==] as numpy applies it when it compares labels. *)
Definition cell_eqb (x y : cell) : bool :=
  match x, y with
  | CNum p, CNum q => Qeq_bool p q
  | CStr s, CStr t => String.eqb s t
  | CPair a b, CPair c d => Qeq_bool a c && Qeq_bool b d
  | _, _ => false
  end.

(** Python exceptions that the module or its collaborators raise. *)
Inductive exn :=
| KeyError (s : string)
| AttributeError (s : string)
| ValueError (s : string)
| IndexError (s : string)
| RuntimeError (s : string).

(** ** Data frames *)

(** A pandas data frame: its number of rows, its columns by name, and the
    [is_copy] attribute that [predict_types] assigns. *)
Record DataFrame := mkDataFrame {
  nrows : nat;
  columns : gmap string (list cell);
  is_copy : option bool
}.

(** Every column of a data frame has one entry per row. *)
Definition wf_df (df : DataFrame) : Prop :=
  map_Forall (λ _ v, length v = nrows df) (columns df).

#[global] Instance wf_df_dec df : Decision (wf_df df).
Proof. unfold wf_df. apply _. Defined.

(** [df[[a, b]]]: the rows of the two-column sub-frame. *)
Definition getitem2 (df : DataFrame) (a b : string) : exn + list (cell * cell) :=
  match columns df !! a, columns df !! b with
  | Some ca, Some cb => inr (zip ca cb)
  | None, _ => inl (KeyError a)
  | _, None => inl (KeyError b)
  end.

(** [df.name] for a column name. *)
Definition getattr_col (df : DataFrame) (name : string) : exn + list cell :=
  match columns df !! name with
  | Some c => inr c
  | None => inl (AttributeError name)
  end.

(** [df[name] = values]: adds the column or overwrites it; pandas refuses
    values whose length is not the length of the index. *)
Definition setitem (df : DataFrame) (name : string) (values : list cell)
  : exn + DataFrame :=
  if decide (length values = nrows df)
  then inr (mkDataFrame (nrows df) (<[name := values]> (columns df)) (is_copy df))
  else inl (ValueError "Length of values does not match length of index").

(** [df.is_copy = b] *)
Definition set_is_copy (df : DataFrame) (b : bool) : DataFrame :=
  mkDataFrame (nrows df) (columns df) (Some b).

(** [df.iterrows()]: the rows in index order, each one a map from column
    name to the value in that row. *)
Definition iterrows (df : DataFrame) : list (gmap string cell) :=
  (λ i, omap (λ col : list cell, col !! i) (columns df)) <$> seq 0 (nrows df).

(** [row.name] on a row produced by [iterrows]. *)
Definition row_getattr (row : gmap string cell) (name : string) : exn + cell :=
  match row !! name with
  | Some v => inr v
  | None => inl (AttributeError name)
  end.

(** [np.asarray(c).reshape(1, 2)]: only a two-element tuple has the two
    entries the new shape needs. *)
Definition reshape_1_2 (c : cell) : exn + list (cell * cell) :=
  match c with
  | CPair a b => inr [(CNum a, CNum b)]
  | _ => inl (ValueError "cannot reshape array of size 1 into shape (1,2)")
  end.

(** [l[i]] on a Python list. *)
Definition list_getitem {A} (l : list A) (i : nat) : exn + A :=
  match l !! i with
  | Some x => inr x
  | None => inl (IndexError "list index out of range")
  end.

(** [list(range(a, b))] *)
Definition py_range (a b : Z) : list Z := seqZ a (b - a).

(** ** Two-dimensional numpy arrays of floats *)

Record ndarray := mkArray {
  shape : nat * nat;
  data : list (list Q)
}.

(** [np.zeros((n, m))] *)
Definition np_zeros (n m : nat) : ndarray :=
  mkArray (n, m) (replicate n (replicate m 0%Q)).

(** [a[i, j] = v] *)
Definition nd_setitem (a : ndarray) (i j : nat) (v : Q) : exn + ndarray :=
  if decide (i < (shape a).1 ∧ j < (shape a).2)
  then inr (mkArray (shape a) (alter (λ row, <[j := v]> row) i (data a)))
  else inl (IndexError "index is out of bounds").

(** [a[:, j]] *)
Definition nd_col (a : ndarray) (j : nat) : list Q :=
  (λ row : list Q, default 0%Q (row !! j)) <$> data a.

(** ** The classifier interface *)

(** [sklearn.metrics.accuracy_score]: the fraction of positions at which the
    predicted label equals the true one. *)
Definition n_correct (y_true y_pred : list cell) : nat :=
  length (List.filter (λ p : cell * cell, cell_eqb p.1 p.2) (zip y_true y_pred)).

Definition accuracy_score (y_true y_pred : list cell) : Q :=
  (inject_Z (Z.of_nat (n_correct y_true y_pred))
   / inject_Z (Z.of_nat (length y_true)))%Q.

(** What the module uses of [KNeighborsClassifier].  [fit k weights X y]
    stands for constructing the estimator with [n_neighbors=k,
    weights=weights] and fitting it; the constructor itself only stores its
    arguments.  [predict] labels every row of its argument, and [score] is
    the mean accuracy of [predict] on the given rows, as
    [ClassifierMixin.score] defines it. *)
Class Classifier := {
  clf : Type;
  fit : Z → string → list (cell * cell) → list cell → exn + clf;
  predict : clf → list (cell * cell) → exn + list cell;
  score : clf → list (cell * cell) → list cell → exn + Q;
  predict_length : ∀ c X ys, predict c X = inr ys → length ys = length X;
  score_accuracy : ∀ c X y,
    score c X y = match predict c X with
                  | inr ys => inr (accuracy_score y ys)
                  | inl e => inl e
                  end
}.

(** ** Effects *)

Abbreviation ref := positive.

(** Calls on [matplotlib.pyplot]. *)
Inductive plt_call :=
| PltFigure (w h : Z)
| PltScatter (xs ys : list Q) (color label : string)
| PltXlabel (s : string)
| PltYlabel (s : string)
| PltYlim (lo hi : Z)
| PltXlim (lo hi : Z)
| PltLegend.

(** Calls to collaborators, in the order in which they are made. *)
Inductive event :=
| EvFit (k : Z) (weights : string) (X : list (cell * cell)) (y : list cell)
| EvPredict (X : list (cell * cell))
| EvScore (X : list (cell * cell)) (y : list cell)
| EvGeojsonToDf
| EvGeojsonCenters
| EvPredToColors (kind : string)
| EvFoliumGeoJson
| EvPlt (c : plt_call).

Record world := mkWorld {
  heap : gmap ref DataFrame;
  trace : list event
}.

(** Computations that read and write the store, log collaborator calls and
    may raise.  An exception keeps the effects that happened before it. *)
Definition M (A : Type) : Type := world → (exn + A) * world.

#[global] Instance M_ret : MRet M := λ A a σ, (inr a, σ).

#[global] Instance M_bind : MBind M := λ A B f m σ,
  match m σ with
  | (inr a, σ') => f a σ'
  | (inl e, σ') => (inl e, σ')
  end.

Definition raise {A} (e : exn) : M A := λ σ, (inl e, σ).

Definition lift {A} (r : exn + A) : M A := λ σ, (r, σ).

Definition emit (ev : event) : M unit :=
  λ σ, (inr (), mkWorld (heap σ) (trace σ ++ [ev])).

Definition deref (r : ref) : M DataFrame := λ σ,
  match heap σ !! r with
  | Some df => (inr df, σ)
  | None => (inl (RuntimeError "no such object"), σ)
  end.

Definition assign (r : ref) (df : DataFrame) : M unit :=
  λ σ, (inr (), mkWorld (<[r := df]> (heap σ)) (trace σ)).

Definition alloc (df : DataFrame) : M ref := λ σ,
  let r := fresh (dom (heap σ)) in
  (inr r, mkWorld (<[r := df]> (heap σ)) (trace σ)).

(** [for x in xs: body], threading the variables the body assigns. *)
Fixpoint for_each {A S} (xs : list A) (body : A → S → M S) (s : S) : M S :=
  match xs with
  | [] => mret s
  | x :: xs' => s' ← body x s; for_each xs' body s'
  end.

(** Data frame operations through a reference. *)
Definition df_getitem2 (r : ref) (a b : string) : M (list (cell * cell)) :=
  df ← deref r; lift (getitem2 df a b).

Definition df_getattr (r : ref) (name : string) : M (list cell) :=
  df ← deref r; lift (getattr_col df name).

Definition df_setitem (r : ref) (name : string) (values : list cell) : M unit :=
  df ← deref r; df' ← lift (setitem df name values); assign r df'.

Definition df_set_is_copy (r : ref) (b : bool) : M unit :=
  df ← deref r; assign r (set_is_copy df b).

Definition df_iterrows (r : ref) : M (list (gmap string cell)) :=
  df ← deref r; mret (iterrows df).

(** ** The mapping collaborators *)

(** The style dictionary of a map feature. *)
Record style := mkStyle {
  fillColor : string;
  fillOpacity : Q;
  weight : Z
}.

(** What the module uses of the rest of [ela] and of folium: the parser of
    a GeoJSON source, the computation of the ['centers'] column (which
    changes the frame it is given), the colour tables for the predicted
    types, the constructor of a map layer, and the two training tables
    [ela.gen_data] and [ela.stor_data]. *)
Class GeoServices := {
  GeoJSON : Type;
  Layer : Type;
  geojson_to_df : GeoJSON → exn + DataFrame;
  geojson_centers : DataFrame → exn + DataFrame;
  pred_gen_to_colors : DataFrame → exn + gmap string string;
  pred_stor_to_colors : DataFrame → exn + gmap string string;
  folium_GeoJson :
    GeoJSON → (gmap string string → exn + style) → exn + Layer;
  gen_data : ref;
  stor_data : ref
}.

Section model_utilities.
Context `{Classifier}.

(** Logged calls to the classifier.  [EvFit] logs the call of [fit]; the
    constructor, which the source calls before it reads the tables, only
    stores its arguments and is not logged. *)
Definition clf_fit (k : Z) (weights : string) (X : list (cell * cell))
    (y : list cell) : M clf :=
  emit (EvFit k weights X y);; lift (fit k weights X y).

Definition clf_predict (c : clf) (X : list (cell * cell)) : M (list cell) :=
  emit (EvPredict X);; lift (predict c X).

Definition clf_score (c : clf) (X : list (cell * cell)) (y : list cell) : M Q :=
  emit (EvScore X y);; lift (score c X y).

(** ** Model evaluation *)

Definition predict_types (k : Z) (weights : string) (train_df test_df : ref)
  : M unit :=
  X ← df_getitem2 train_df "lat" "lon";
  y ← df_getattr train_df "type";
  c ← clf_fit k weights X y;
  df_set_is_copy train_df false;;
  df_set_is_copy test_df false;;
  X_train ← df_getitem2 train_df "lat" "lon";
  pred_train ← clf_predict c X_train;
  df_setitem train_df "pred" pred_train;;
  X_test ← df_getitem2 test_df "lat" "lon";
  pred_test ← clf_predict c X_test;
  df_setitem test_df "pred" pred_test.

Definition try_k (k : Z) (weights : string) (train_df test_df : ref)
  : M (Q * Q) :=
  x_train ← df_getitem2 train_df "lat" "lon";
  y_train ← df_getattr train_df "type";
  c ← clf_fit k weights x_train y_train;
  x_test ← df_getitem2 test_df "lat" "lon";
  y_test ← df_getattr test_df "type";
  s_train ← clf_score c x_train y_train;
  let train_error := (1 - s_train)%Q in
  s_test ← clf_score c x_test y_test;
  let test_error := (1 - s_test)%Q in
  mret (train_error, test_error).

(** The body of the loop of [try_k_range] at index [i]. *)
Definition try_k_range_body (k_list : list Z) (weights : string)
    (train_df test_df : ref) (i : nat) (errors : ndarray) : M ndarray :=
  k ← lift (list_getitem k_list i);
  k_errors ← try_k k weights train_df test_df;
  k' ← lift (list_getitem k_list i);
  errors ← lift (nd_setitem errors i 0 (inject_Z k'));
  errors ← lift (nd_setitem errors i 1 k_errors.1);
  lift (nd_setitem errors i 2 k_errors.2).

Definition try_k_range (k_list : list Z) (weights : string)
    (train_df test_df : ref) : M ndarray :=
  let errors := np_zeros (length k_list) 3 in
  for_each (seq 0 (length k_list))
    (try_k_range_body k_list weights train_df test_df) errors.

Definition plot_knn_error (k_max : Z) (weights : string)
    (train_df test_df : ref) : M unit :=
  result ← try_k_range (py_range 1 k_max) weights train_df test_df;
  emit (EvPlt (PltFigure 4 4));;
  let k := nd_col result 0 in
  let train_error := nd_col result 1 in
  let test_error := nd_col result 2 in
  emit (EvPlt (PltScatter k train_error "red" "Training error"));;
  emit (EvPlt (PltScatter k test_error "blue" "Testing error"));;
  emit (EvPlt (PltXlabel "K"));;
  emit (EvPlt (PltYlabel "Error rate"));;
  emit (EvPlt (PltYlim 0 1));;
  emit (EvPlt (PltXlim 0 (k_max + 1)));;
  emit (EvPlt PltLegend).

(** ** Prediction maps *)

Context `{GeoServices}.

(** The body of the loop of [geojson_predict_k] for one row; [acc] holds
    the lists [gens] and [stors]. *)
Definition geojson_predict_k_body (gen_clf stor_clf : clf)
    (row : gmap string cell) (acc : list cell * list cell)
  : M (list cell * list cell) :=
  centers ← lift (row_getattr row "centers");
  latlon ← lift (reshape_1_2 centers);
  p_gen ← clf_predict gen_clf latlon;
  g ← lift (list_getitem p_gen 0);
  p_stor ← clf_predict stor_clf latlon;
  s ← lift (list_getitem p_stor 0);
  mret (acc.1 ++ [g], acc.2 ++ [s]).

Definition geojson_predict_k (geo_df gen_train stor_train : ref) (k : Z)
    (weights : string) : M unit :=
  X_gen ← df_getitem2 gen_train "lat" "lon";
  y_gen ← df_getattr gen_train "type";
  gen_clf ← clf_fit k weights X_gen y_gen;
  X_stor ← df_getitem2 stor_train "lat" "lon";
  y_stor ← df_getattr stor_train "type";
  stor_clf ← clf_fit k weights X_stor y_stor;
  rows ← df_iterrows geo_df;
  acc ← for_each rows (geojson_predict_k_body gen_clf stor_clf) ([], []);
  df_setitem geo_df "pred_gen" acc.1;;
  df_setitem geo_df "pred_stor" acc.2.

(** The style function handed to folium: the fill colour is looked up by
    the feature's ['id']. *)
Definition style_function (map_colors : gmap string string)
    (feature : gmap string string) : exn + style :=
  match feature !! "id" with
  | None => inl (KeyError "id")
  | Some fid =>
      match map_colors !! fid with
      | None => inl (KeyError fid)
      | Some color => inr (mkStyle color (4 # 10) 0)
      end
  end.

Definition prediction_map_k (geoj : GeoJSON) (k : Z) (weights : string)
    (gen_or_stor : string) : M Layer :=
  emit EvGeojsonToDf;;
  df ← lift (geojson_to_df geoj);
  geo_df ← alloc df;
  emit EvGeojsonCenters;;
  df ← deref geo_df;
  df ← lift (geojson_centers df);
  assign geo_df df;;
  geojson_predict_k geo_df gen_data stor_data k weights;;
  map_colors ←
    (if String.eqb gen_or_stor "gen" then
       emit (EvPredToColors "gen");;
       df ← deref geo_df; lift (pred_gen_to_colors df)
     else if String.eqb gen_or_stor "stor" then
       emit (EvPredToColors "stor");;
       df ← deref geo_df; lift (pred_stor_to_colors df)
     else raise (ValueError "Enter either 'gen' or 'stor'."));
  emit EvFoliumGeoJson;;
  lift (folium_GeoJson geoj (style_function map_colors)).

End model_utilities.

(** ** Counting facilities by type *)

(** [Series.unique()]: the distinct values, in order of first appearance.
    This is pandas' result for a column of strings and numbers without
    missing values; a missing value (NaN, None), which [==] never matches,
    is not a cell. *)
Fixpoint unique (l : list cell) : list cell :=
  match l with
  | [] => []
  | x :: l' => x :: List.filter (λ y, negb (cell_eqb y x)) (unique l')
  end.

(** [len(df[column == tp])]: the number of rows whose entry equals [tp]. *)
Definition count_rows (column : list cell) (tp : cell) : nat :=
  length (List.filter (λ v, cell_eqb v tp) column).

(** The loop [for tp in tps: print(tp, len(df[df.name == tp]))]; a printed
    line is the pair of its two arguments, and [out] is what has been
    printed so far. *)
Fixpoint print_counts (df : DataFrame) (name : string) (tps : list cell)
    (out : list (cell * nat)) : (exn + unit) * list (cell * nat) :=
  match tps with
  | [] => (inr (), out)
  | tp :: tps' =>
      match getattr_col df name with
      | inl e => (inl e, out)
      | inr column =>
          print_counts df name tps' (out ++ [(tp, count_rows column tp)])
      end
  end.

Definition count_types (df : DataFrame) (out : list (cell * nat))
  : (exn + unit) * list (cell * nat) :=
  match getattr_col df "type" with
  | inl e => (inl e, out)
  | inr column => print_counts df "type" (unique column) out
  end.

Definition count_pred_types (df : DataFrame) (out : list (cell * nat))
  : (exn + unit) * list (cell * nat) :=
  match getattr_col df "pred" with
  | inl e => (inl e, out)
  | inr column => print_counts df "pred" (unique column) out
  end.

(** ** Vocabulary of the statements *)

(** The column [name] of a frame (empty when the frame has none). *)
Definition col (df : DataFrame) (name : string) : list cell :=
  default [] (columns df !! name).

(** The (lat, lon) rows of a frame. *)
Definition coords (df : DataFrame) : list (cell * cell) :=
  zip (col df "lat") (col df "lon").

(** A labelled point table: a well-formed frame with the columns ['lat'],
    ['lon'] and ['type']. *)
Definition labelled (df : DataFrame) : Prop :=
  wf_df df ∧ is_Some (columns df !! "lat") ∧ is_Some (columns df !! "lon")
  ∧ is_Some (columns df !! "type").

(** The frame behind a reference (an empty frame when there is none). *)
Definition frame_at (h : gmap ref DataFrame) (r : ref) : DataFrame :=
  default (mkDataFrame 0 ∅ None) (h !! r).

(** The classifier calls of one [try_k] that returns: one fit on the
    training table and one score for each table. *)
Definition try_k_calls (h : gmap ref DataFrame) (weights : string)
    (train_df test_df : ref) (k : Z) : list event :=
  let dtr := frame_at h train_df in
  let dte := frame_at h test_df in
  [EvFit k weights (coords dtr) (col dtr "type");
   EvScore (coords dtr) (col dtr "type");
   EvScore (coords dte) (col dte "type")].

#[global] Instance labelled_dec df : Decision (labelled df).
Proof. unfold labelled. apply _. Defined.

(** The frame [df] once [predict_types] has labelled it with [pred]. *)
Definition with_pred (df : DataFrame) (pred : list cell) : DataFrame :=
  mkDataFrame (nrows df) (<["pred" := pred]> (columns df)) (Some false).

(** [df'] has the rows of [df] and, but for ['pred'], its columns. *)
Definition same_but_pred (df df' : DataFrame) : Prop :=
  nrows df' = nrows df ∧ ∀ c, c ≠ "pred" → columns df' !! c = columns df !! c.

(** Every frame of [h] is still there in [h'], changed in its ['pred']
    column at most. *)
Definition pred_only (h h' : gmap ref DataFrame) : Prop :=
  ∀ r df, h !! r = Some df → ∃ df', h' !! r = Some df' ∧ same_but_pred df df'.

(** The cell that holds the representative point [p] of a feature, and
    the one-row query made of it. *)
Definition center_cell (p : Q * Q) : cell := CPair p.1 p.2.

Definition query (p : Q * Q) : list (cell * cell) := [(CNum p.1, CNum p.2)].

(** The frame [df] once [geojson_predict_k] has added its two columns. *)
Definition with_predictions (df : DataFrame) (gens stors : list cell)
  : DataFrame :=
  mkDataFrame (nrows df)
    (<["pred_stor" := stors]> (<["pred_gen" := gens]> (columns df)))
    (is_copy df).

(** The calls a computation logs all satisfy [P]. *)
Definition logs {A} (P : event → Prop) (m : M A) : Prop :=
  ∀ σ, ∃ evs, trace (m σ).2 = trace σ ++ evs ∧ Forall P evs.

(** Calls to the classifier. *)
Definition classifier_call (ev : event) : Prop :=
  match ev with
  | EvFit _ _ _ _ | EvPredict _ | EvScore _ _ => True
  | _ => False
  end.

(** Calls that query a fitted classifier. *)
Definition query_call (ev : event) : Prop :=
  match ev with
  | EvPredict _ | EvScore _ _ => True
  | _ => False
  end.

(** Calls that render: a colour table or the map layer. *)
Definition rendering_call (ev : event) : Prop :=
  match ev with
  | EvPredToColors _ | EvFoliumGeoJson => True
  | _ => False
  end.

(** Row [i] of [df] is labelled correctly by the predictions [pred]: its
    predicted type equals its actual type. *)
Definition row_correct (df : DataFrame) (pred : list cell) (i : nat) : bool :=
  match pred !! i, col df "type" !! i with
  | Some p, Some t => cell_eqb p t
  | _, _ => false
  end.

(** The error rate in the words of the specification: one less the fraction
    of the rows of [df] whose predicted type equals the actual type. *)
Definition error_rate (df : DataFrame) (pred : list cell) : Q :=
  (1 - inject_Z (Z.of_nat (length (List.filter (row_correct df pred)
                                     (seq 0 (nrows df)))))
       / inject_Z (Z.of_nat (nrows df)))%Q.

(** The row of the error table for [k], given what [try_k] returned. *)
Definition error_row (k : Z) (r : exn + Q * Q) : list Q :=
  match r with
  | inr e => [inject_Z k; e.1; e.2]
  | inl _ => []
  end.

(** The values of the K arguments of the classifier fits in a trace. *)
Definition fit_ks (evs : list event) : list Z :=
  omap (λ ev, match ev with EvFit k _ _ _ => Some k | _ => None end) evs.

(** The first coordinates given to the scatter plots in a trace. *)
Definition scatter_xs (evs : list event) : list (list Q) :=
  omap (λ ev, match ev with EvPlt (PltScatter xs _ _ _) => Some xs | _ => None end) evs.

(** [steady R m]: what [m] returns, the store it leaves (related to the
    initial one by [R]) and the calls it logs depend on the initial store
    only, and the calls are added at the end of the trace. *)
Definition steady {A} (R : relation (gmap ref DataFrame)) (m : M A) : Prop :=
  ∀ h, ∃ r h' evs, R h h' ∧ ∀ t, m (mkWorld h t) = (r, mkWorld h' (t ++ evs)).

(** A scalar label: a string or a number.  A sequence is not one, and
    neither is a missing value (NaN, None), which [==] never matches and
    which is not a cell. *)
Definition is_label (v : cell) : bool :=
  match v with
  | CNum _ | CStr _ => true
  | CPair _ _ => false
  end.

(** Every entry of the column is a scalar label. *)
Definition scalar_labels (column : list cell) : Prop :=
  Forall (λ v, is_label v = true) column.

(** No two cells of the list are equal. *)
Inductive distinct : list cell → Prop :=
| distinct_nil : distinct []
| distinct_cons x l :
    Forall (λ y, cell_eqb x y = false) l → distinct l → distinct (x :: l).

(** The two stores hold frames behind the same references, and frames
    behind the same reference differ in their ['pred'] column at most. *)
Definition same_inputs (h h' : gmap ref DataFrame) : Prop :=
  ∀ r, option_Forall2 same_but_pred (h !! r) (h' !! r).

(** Only the frame behind [geo] may differ between the two stores. *)
Definition only_at (geo : ref) (h h' : gmap ref DataFrame) : Prop :=
  ∀ r, r ≠ geo → h' !! r = h !! r.

(** ** A nearest-neighbour classifier in exact arithmetic

    One inhabitant of the classifier interface, used to run the module on
    concrete tables.  Neighbours are ordered by squared Euclidean distance
    (earlier samples first among equals); with ['distance'] weighting a vote
    counts the inverse of that squared distance, and only exact hits count
    when there is one. *)
Module ExactKNN.

Record model := mkModel {
  n_neighbors : nat;
  weighting : string;
  samples : list ((Q * Q) * cell)
}.

Definition as_point (r : cell * cell) : option (Q * Q) :=
  match r with
  | (CNum a, CNum b) => Some (a, b)
  | _ => None
  end.

Definition check_array (X : list (cell * cell)) : exn + list (Q * Q) :=
  match X with
  | [] => inl (ValueError "Found array with 0 sample(s)")
  | _ =>
      match mapM as_point X with
      | Some ps => inr ps
      | None => inl (ValueError "could not convert string to float")
      end
  end.

Definition sqdist (p q : Q * Q) : Q :=
  Qred ((p.1 - q.1) * (p.1 - q.1) + (p.2 - q.2) * (p.2 - q.2))%Q.

Fixpoint insert_near (d : Q) (l : cell) (ns : list (Q * cell))
  : list (Q * cell) :=
  match ns with
  | [] => [(d, l)]
  | n :: ns' =>
      if Qle_bool n.1 d then n :: insert_near d l ns' else (d, l) :: ns
  end.

Definition neighbours (m : model) (p : Q * Q) : list (Q * cell) :=
  take (n_neighbors m)
    (foldl (λ acc s, insert_near (sqdist p s.1) s.2 acc) [] (samples m)).

Definition vote_weight (w : string) (hit : bool) (d : Q) : Q :=
  if String.eqb w "distance"
  then (if hit then (if Qeq_bool d 0 then 1 else 0) else / d)%Q
  else 1%Q.

Fixpoint add_vote (l : cell) (w : Q) (tally : list (cell * Q))
  : list (cell * Q) :=
  match tally with
  | [] => [(l, w)]
  | t :: tally' =>
      if cell_eqb l t.1 then (t.1, Qred (t.2 + w)) :: tally'
      else t :: add_vote l w tally'
  end.

Fixpoint best (tally : list (cell * Q)) (cur : cell * Q) : cell :=
  match tally with
  | [] => cur.1
  | t :: tally' => if Qle_bool t.2 cur.2 then best tally' cur else best tally' t
  end.

Definition predict_one (m : model) (p : Q * Q) : cell :=
  let ns := neighbours m p in
  let hit := existsb (λ n : Q * cell, Qeq_bool n.1 0) ns in
  let tally :=
    foldl (λ t (n : Q * cell), add_vote n.2 (vote_weight (weighting m) hit n.1) t)
      [] ns in
  match tally with
  | [] => CStr ""
  | t :: tally' => best tally' t
  end.

Definition knn_fit (k : Z) (w : string) (X : list (cell * cell)) (y : list cell)
  : exn + model :=
  if decide (k ≤ 0)%Z then inl (ValueError "Expected n_neighbors > 0")
  else if negb (String.eqb w "uniform" || String.eqb w "distance")
  then inl (ValueError "weights not recognized")
  else match check_array X with
       | inl e => inl e
       | inr ps =>
           if decide (length ps = length y)
           then inr (mkModel (Z.to_nat k) w (zip ps y))
           else inl (ValueError "inconsistent numbers of samples")
       end.

Definition knn_predict (m : model) (X : list (cell * cell)) : exn + list cell :=
  match check_array X with
  | inl e => inl e
  | inr ps =>
      if decide (n_neighbors m ≤ length (samples m))
      then inr (predict_one m <$> ps)
      else inl (ValueError "Expected n_neighbors <= n_samples_fit")
  end.

Definition knn_score (m : model) (X : list (cell * cell)) (y : list cell)
  : exn + Q :=
  match knn_predict m X with
  | inr ys => inr (accuracy_score y ys)
  | inl e => inl e
  end.

Lemma knn_predict_length m X ys : knn_predict m X = inr ys → length ys = length X.
Proof.
  unfold knn_predict, check_array. destruct X as [|x X]; [done|].
  destruct (mapM as_point (x :: X)) as [ps|] eqn:E; [|done].
  case_decide; [|done]. intros [= <-].
  rewrite length_fmap. symmetry. by eapply length_mapM.
Qed.

#[global] Instance classifier : Classifier := {|
  fit := knn_fit;
  predict := knn_predict;
  score := knn_score;
  predict_length := knn_predict_length;
  score_accuracy := λ m X y, eq_refl
|}.

End ExactKNN.

(** ** A geo source given by its features' identifiers and points

    One inhabitant of the mapping interface: the source lists every
    feature's identifier with its representative point, a colour table maps
    each identifier to the predicted type's name, and a layer is the list of
    the styles of the features. *)
Module PointGeo.

Definition source := list (string * (Q * Q)).

Definition to_df (g : source) : exn + DataFrame :=
  inr (mkDataFrame (length g)
         {[ "id" := (λ f : string * (Q * Q), CStr f.1) <$> g;
            "point" := (λ f : string * (Q * Q), CPair f.2.1 f.2.2) <$> g ]}
         None).

Definition centers (df : DataFrame) : exn + DataFrame :=
  match columns df !! "point" with
  | Some c => inr (mkDataFrame (nrows df) (<["centers" := c]> (columns df))
                     (is_copy df))
  | None => inl (KeyError "point")
  end.

Definition cell_name (c : cell) : string :=
  match c with
  | CStr s => s
  | _ => ""
  end.

Definition to_colors (col : string) (df : DataFrame)
  : exn + gmap string string :=
  match columns df !! "id", columns df !! col with
  | Some ids, Some ps =>
      inr (list_to_map (zip (cell_name <$> ids) (cell_name <$> ps)))
  | None, _ => inl (KeyError "id")
  | _, None => inl (KeyError col)
  end.

Definition geo_layer (g : source)
    (style_function : gmap string string → exn + style)
  : exn + list (exn + style) :=
  inr ((λ f : string * (Q * Q), style_function {[ "id" := f.1 ]}) <$> g).

#[global] Instance services : GeoServices := {|
  GeoJSON := source;
  geojson_to_df := to_df;
  geojson_centers := centers;
  pred_gen_to_colors := to_colors "pred_gen";
  pred_stor_to_colors := to_colors "pred_stor";
  folium_GeoJson := geo_layer;
  gen_data := 1%positive;
  stor_data := 2%positive
|}.

End PointGeo.

(** ** Example tables *)

Definition table (lat lon : list Q) (type : list string) : DataFrame :=
  mkDataFrame (length lat)
    {[ "lat" := CNum <$> lat; "lon" := CNum <$> lon; "type" := CStr <$> type ]}
    None.

Definition train3 : DataFrame :=
  table [0; 1; 5]%Q [0; 0; 5]%Q ["A"; "A"; "B"].

Definition train5 : DataFrame :=
  table [0; 1; 5; 6; 2]%Q [0; 0; 5; 5; 1]%Q ["A"; "A"; "B"; "B"; "A"].

Definition test2 : DataFrame :=
  table [1; 4]%Q [0; 4]%Q ["A"; "A"].

(** A feature frame as [geojson_centers] leaves it. *)
Definition features2 : DataFrame :=
  mkDataFrame 2
    {[ "id" := [CStr "WA"; CStr "NY"];
       "centers" := center_cell <$> [(0, 0); (5, 4)]%Q ]}
    None.

Definition world0 : world :=
  mkWorld {[ 1%positive := train3; 2%positive := test2;
             3%positive := features2 ]} [].

Definition world5 : world :=
  mkWorld {[ 1%positive := train5; 2%positive := test2 ]} [].

(** A test table without its ['lat'] column. *)
Definition test_no_lat : DataFrame :=
  mkDataFrame 2
    {[ "lon" := CNum <$> [0; 4]%Q; "type" := CStr <$> ["A"; "A"] ]} None.

Definition world_no_lat : world :=
  mkWorld {[ 1%positive := train3; 2%positive := test_no_lat ]} [].

(** A feature frame without rows, and without a ['centers'] column. *)
Definition features0 : DataFrame :=
  mkDataFrame 0 {[ "id" := [] ]} None.

Definition world_no_features : world :=
  mkWorld {[ 1%positive := train3; 2%positive := test2;
             3%positive := features0 ]} [].

(** The classifier [ExactKNN.knn_fit] returns for [train3] and for [test2]. *)
Definition knn_train3 (k : nat) (w : string) : ExactKNN.model :=
  ExactKNN.mkModel k w
    [((0, 0)%Q, CStr "A"); ((1, 0)%Q, CStr "A"); ((5, 5)%Q, CStr "B")].

Definition knn_test2 (k : nat) (w : string) : ExactKNN.model :=
  ExactKNN.mkModel k w [((1, 0)%Q, CStr "A"); ((4, 4)%Q, CStr "A")].

(** * Properties *)

(** ** Reasoning about computations *)

Section steady.
Context (R : relation (gmap ref DataFrame)) `{!PreOrder R}.

Lemma steady_ret {A} (a : A) : steady R (mret a).
Proof.
  intros h. exists (inr a), h, []. split; [done|].
  intros t. by rewrite app_nil_r.
Qed.

Lemma steady_lift {A} (r : exn + A) : steady R (lift r).
Proof.
  intros h. exists r, h, []. split; [done|].
  intros t. by rewrite app_nil_r.
Qed.

Lemma steady_raise {A} (e : exn) : steady R (raise (A:=A) e).
Proof. apply (steady_lift (inl e)). Qed.

Lemma steady_emit ev : steady R (emit ev).
Proof. intros h. by exists (inr ()), h, [ev]. Qed.

Lemma steady_deref r : steady R (deref r).
Proof.
  intros h. destruct (h !! r) as [df|] eqn:E.
  - exists (inr df), h, []. split; [done|]. intros t.
    unfold deref; cbn. by rewrite E, app_nil_r.
  - exists (inl (RuntimeError "no such object")), h, []. split; [done|].
    intros t. unfold deref; cbn. by rewrite E, app_nil_r.
Qed.

Lemma steady_bind {A B} (m : M A) (f : A → M B) :
  steady R m → (∀ a, steady R (f a)) → steady R (m ≫= f).
Proof.
  intros Hm Hf h. destruct (Hm h) as (r & h1 & evs1 & HR1 & E1).
  destruct r as [e|a].
  - exists (inl e), h1, evs1. split; [done|]. intros t.
    unfold mbind, M_bind. by rewrite E1.
  - destruct (Hf a h1) as (r2 & h2 & evs2 & HR2 & E2).
    exists r2, h2, (evs1 ++ evs2). split; [by etrans|]. intros t.
    unfold mbind, M_bind. by rewrite E1, E2, (assoc_L (++)).
Qed.

Lemma steady_for_each {A S} (xs : list A) (body : A → S → M S) (s : S) :
  (∀ x s, steady R (body x s)) → steady R (for_each xs body s).
Proof.
  intros Hbody. revert s.
  induction xs as [|x xs IH]; intros s; cbn [for_each].
  - apply steady_ret.
  - apply steady_bind; [apply Hbody | apply IH].
Qed.

End steady.

(** A steady computation behaves in the same way in every world that has
    the same store. *)
Lemma steady_result {A} R (m : M A) σ σ' :
  steady R m → heap σ = heap σ' → (m σ).1 = (m σ').1.
Proof.
  intros Hm Hh. destruct σ as [h t], σ' as [h' t']; cbn in Hh; subst h'.
  destruct (Hm h) as (r & h1 & evs & _ & E). by rewrite !E.
Qed.

Lemma steady_related {A} R (m : M A) σ : steady R m → R (heap σ) (heap (m σ).2).
Proof.
  intros Hm. destruct σ as [h t].
  destruct (Hm h) as (r & h1 & evs & HR & E). by rewrite E.
Qed.

Ltac steady_step :=
  first [ apply steady_bind | apply steady_for_each
        | apply steady_ret | apply steady_lift | apply steady_raise
        | apply steady_emit | apply steady_deref ];
  lazymatch goal with
  | |- PreOrder _ => apply _
  | |- _ => intros
  end.

(** ** Runs that return *)

Lemma bind_inr {A B} (m : M A) (f : A → M B) σ b σ2 :
  (m ≫= f) σ = (inr b, σ2) →
  ∃ a σ1, m σ = (inr a, σ1) ∧ f a σ1 = (inr b, σ2).
Proof.
  unfold mbind, M_bind. destruct (m σ) as [[e|a] σ1]; [done|]. eauto.
Qed.

Lemma ret_inr {A} (a b : A) σ σ1 :
  (mret a : M A) σ = (inr b, σ1) → b = a ∧ σ1 = σ.
Proof. by intros [= -> ->]. Qed.

Lemma lift_inr {A} (r : exn + A) a σ σ1 :
  lift r σ = (inr a, σ1) → r = inr a ∧ σ1 = σ.
Proof. by intros [= -> ->]. Qed.

Lemma emit_inr ev u σ σ1 :
  emit ev σ = (inr u, σ1) → σ1 = mkWorld (heap σ) (trace σ ++ [ev]).
Proof. by intros [= <-]. Qed.

Lemma deref_inr r df σ σ1 :
  deref r σ = (inr df, σ1) → heap σ !! r = Some df ∧ σ1 = σ.
Proof. unfold deref. destruct (heap σ !! r); by intros [= -> ->]. Qed.

Lemma assign_inr r df u σ σ1 :
  assign r df σ = (inr u, σ1) → σ1 = mkWorld (<[r := df]> (heap σ)) (trace σ).
Proof. by intros [= <-]. Qed.

Lemma alloc_inr df r σ σ1 :
  alloc df σ = (inr r, σ1) →
  r = fresh (dom (heap σ)) ∧ σ1 = mkWorld (<[r := df]> (heap σ)) (trace σ).
Proof. by intros [= <- <-]. Qed.

Lemma raise_inr {A} e (a : A) σ σ1 : raise e σ = (inr a, σ1) → False.
Proof. done. Qed.

(** Decompose a run that returns into the runs of its steps. *)
Ltac inv_run H :=
  repeat match goal with
  | H : (_ ≫= _) _ = (inr _, _) |- _ =>
      apply bind_inr in H as (? & ? & ? & H)
  | H : @mret M _ _ _ _ = (inr _, _) |- _ => apply ret_inr in H as [? ?]
  | H : lift _ _ = (inr _, _) |- _ => apply lift_inr in H as [? ?]
  | H : emit _ _ = (inr _, _) |- _ => apply emit_inr in H
  | H : deref _ _ = (inr _, _) |- _ => apply deref_inr in H as [? ?]
  | H : assign _ _ _ = (inr _, _) |- _ => apply assign_inr in H
  | H : alloc _ _ = (inr _, _) |- _ => apply alloc_inr in H as [? ?]
  | H : raise _ _ = (inr _, _) |- _ => destruct (raise_inr _ _ _ _ H)
  end; simplify_eq/=.

(** ** Data frames *)

Lemma getitem2_coords df :
  is_Some (columns df !! "lat") → is_Some (columns df !! "lon") →
  getitem2 df "lat" "lon" = inr (coords df).
Proof.
  intros [lat Hlat] [lon Hlon]. unfold getitem2, coords, col.
  by rewrite Hlat, Hlon.
Qed.

Lemma getattr_col_some df name :
  is_Some (columns df !! name) → getattr_col df name = inr (col df name).
Proof. intros [c Hc]. unfold getattr_col, col. by rewrite Hc. Qed.

Lemma getitem2_inr df X : getitem2 df "lat" "lon" = inr X → X = coords df.
Proof.
  unfold getitem2, coords, col.
  destruct (columns df !! "lat"), (columns df !! "lon"); naive_solver.
Qed.

Lemma getattr_col_inr df name y : getattr_col df name = inr y → y = col df name.
Proof. unfold getattr_col, col. destruct (columns df !! name); naive_solver. Qed.

Lemma frame_at_lookup h r df : h !! r = Some df → frame_at h r = df.
Proof. unfold frame_at. by intros ->. Qed.

Lemma coords_length df :
  wf_df df → is_Some (columns df !! "lat") → is_Some (columns df !! "lon") →
  length (coords df) = nrows df.
Proof.
  intros Hwf [lat Hlat] [lon Hlon]. unfold coords, col.
  rewrite Hlat, Hlon; cbn. rewrite length_zip.
  rewrite (Hwf _ _ Hlat), (Hwf _ _ Hlon). lia.
Qed.

Lemma col_length df name :
  wf_df df → is_Some (columns df !! name) → length (col df name) = nrows df.
Proof. intros Hwf [c Hc]. unfold col. rewrite Hc. cbn. by eapply Hwf. Qed.

(** Steps that return, run forwards. *)
Lemma bind_ok {A B} (m : M A) (f : A → M B) σ a σ1 :
  m σ = (inr a, σ1) → (m ≫= f) σ = f a σ1.
Proof. intros E. unfold mbind, M_bind. by rewrite E. Qed.

Lemma bind_err {A B} (m : M A) (f : A → M B) σ e σ1 :
  m σ = (inl e, σ1) → (m ≫= f) σ = (inl e, σ1).
Proof. intros E. unfold mbind, M_bind. by rewrite E. Qed.

Lemma df_getitem2_ok r df σ :
  heap σ !! r = Some df →
  is_Some (columns df !! "lat") → is_Some (columns df !! "lon") →
  df_getitem2 r "lat" "lon" σ = (inr (coords df), σ).
Proof.
  intros Hr Hlat Hlon. unfold df_getitem2, deref, lift, mbind, M_bind.
  by rewrite Hr, getitem2_coords.
Qed.

Lemma df_getattr_ok r df name σ :
  heap σ !! r = Some df → is_Some (columns df !! name) →
  df_getattr r name σ = (inr (col df name), σ).
Proof.
  intros Hr Hc. unfold df_getattr, deref, lift, mbind, M_bind.
  by rewrite Hr, getattr_col_some.
Qed.

Lemma df_iterrows_ok r df σ :
  heap σ !! r = Some df → df_iterrows r σ = (inr (iterrows df), σ).
Proof. intros Hr. unfold df_iterrows, deref, mbind, M_bind. by rewrite Hr. Qed.

Lemma df_setitem_ok r df name values σ :
  heap σ !! r = Some df → length values = nrows df →
  df_setitem r name values σ =
  (inr (),
   mkWorld (<[r := mkDataFrame (nrows df) (<[name := values]> (columns df))
                     (is_copy df)]> (heap σ)) (trace σ)).
Proof.
  intros Hr Hn. unfold df_setitem, deref, assign, lift, setitem, mbind, M_bind.
  by rewrite Hr, decide_True.
Qed.

(** ** Accuracy *)

Lemma cell_eqb_sym x y : cell_eqb x y = cell_eqb y x.
Proof.
  assert (Hq : ∀ p q, Qeq_bool p q = Qeq_bool q p).
  { intros p q. apply eq_true_iff_eq. rewrite !Qeq_bool_iff.
    split; intros E; by symmetry. }
  destruct x as [p|s|a b], y as [q|t|c d]; cbn; try done.
  - apply String.eqb_sym.
  - by rewrite (Hq a c), (Hq b d).
Qed.

Lemma filter_length_fmap {A B} (f : B → bool) (g : A → B) (l : list A) :
  length (List.filter f (g <$> l)) = length (List.filter (λ x, f (g x)) l).
Proof.
  induction l as [|x l IH]; [done|]. cbn.
  destruct (f (g x)); cbn; by rewrite IH.
Qed.

Lemma n_correct_rows (y pred : list cell) :
  length pred = length y →
  n_correct y pred =
  length (List.filter (λ i, match pred !! i, y !! i with
                            | Some p, Some t => cell_eqb p t
                            | _, _ => false
                            end) (seq 0 (length y))).
Proof.
  unfold n_correct. revert pred.
  induction y as [|t y IH]; intros [|p pred] Hlen; try done.
  cbn [length seq zip zip_with List.filter fst snd lookup list_lookup].
  rewrite <- fmap_S_seq, (cell_eqb_sym t p).
  cbn in Hlen. injection Hlen as Hlen.
  destruct (cell_eqb p t); cbn [length];
    rewrite filter_length_fmap; cbn; by rewrite <- IH.
Qed.

Lemma n_correct_le (y pred : list cell) : n_correct y pred ≤ length y.
Proof.
  unfold n_correct. etrans; [apply List.filter_length_le|].
  rewrite length_zip. lia.
Qed.

Lemma accuracy_score_error_rate df pred :
  wf_df df → is_Some (columns df !! "type") → length pred = nrows df →
  (1 - accuracy_score (col df "type") pred)%Q = error_rate df pred.
Proof.
  intros Hwf Hty Hlen. unfold accuracy_score, error_rate, row_correct.
  rewrite n_correct_rows by (by rewrite col_length).
  by rewrite col_length.
Qed.

Lemma accuracy_score_bounds (y pred : list cell) :
  (0 <= accuracy_score y pred <= 1)%Q.
Proof.
  unfold accuracy_score. pose proof (n_correct_le y pred) as Hle.
  destruct (length y) as [|n] eqn:E.
  - assert (n_correct y pred = 0) as -> by lia. done.
  - assert (0 < inject_Z (Z.of_nat (S n)))%Q as Hpos.
    { change 0%Q with (inject_Z 0). rewrite <- Zlt_Qlt. lia. }
    split.
    + apply Qle_shift_div_l; [done|]. rewrite Qmult_0_l.
      change 0%Q with (inject_Z 0). rewrite <- Zle_Qle. lia.
    + apply Qle_shift_div_r; [done|]. rewrite Qmult_1_l.
      rewrite <- Zle_Qle. lia.
Qed.

Lemma error_bounds (a : Q) : (0 <= a <= 1)%Q → (0 <= 1 - a <= 1)%Q.
Proof. intros [? ?]. split; lra. Qed.

Section evaluation.
Context `{Classifier}.

Lemma try_k_steady k w tr te : steady eq (try_k k w tr te).
Proof.
  unfold try_k, df_getitem2, df_getattr, clf_fit, clf_score.
  repeat steady_step.
Qed.

(** What [try_k] does on tables that the classifier accepts. *)
Lemma try_k_run k w tr te σ dtr dte c p_tr p_te :
  heap σ !! tr = Some dtr → heap σ !! te = Some dte →
  labelled dtr → labelled dte →
  fit k w (coords dtr) (col dtr "type") = inr c →
  predict c (coords dtr) = inr p_tr →
  predict c (coords dte) = inr p_te →
  try_k k w tr te σ =
  (inr ((1 - accuracy_score (col dtr "type") p_tr)%Q,
        (1 - accuracy_score (col dte "type") p_te)%Q),
   mkWorld (heap σ)
     (trace σ ++ [EvFit k w (coords dtr) (col dtr "type");
                  EvScore (coords dtr) (col dtr "type");
                  EvScore (coords dte) (col dte "type")])).
Proof.
  intros Htr Hte (_ & Hlat & Hlon & Hty) (_ & Hlat' & Hlon' & Hty') Hfit Hp Hp'.
  destruct σ as [h t]; cbn in Htr, Hte.
  unfold try_k, df_getitem2, df_getattr, clf_fit, clf_score, deref, lift, emit,
    mbind, M_bind, mret, M_ret; cbn.
  repeat (first [ rewrite Htr | rewrite Hte | rewrite getitem2_coords by done
                | rewrite getattr_col_some by done | rewrite Hfit
                | rewrite score_accuracy | rewrite Hp | rewrite Hp' ]; cbn).
  by rewrite <- !(assoc_L (++)).
Qed.

(** The calls logged by a [try_k] that returns. *)
Lemma try_k_trace k w tr te σ e :
  (try_k k w tr te σ).1 = inr e →
  trace (try_k k w tr te σ).2 = trace σ ++ try_k_calls (heap σ) w tr te k.
Proof.
  destruct (try_k k w tr te σ) as [r σ2] eqn:E. cbn. intros ->.
  unfold try_k, df_getitem2, df_getattr, clf_fit, clf_score in E.
  inv_run E. unfold try_k_calls.
  repeat match goal with
  | H : getitem2 _ _ _ = inr _ |- _ => apply getitem2_inr in H
  | H : getattr_col _ _ = inr _ |- _ => apply getattr_col_inr in H
  | H : _ !! _ = Some _ |- _ => apply frame_at_lookup in H
  end.
  simplify_eq. by rewrite <- !(assoc_L (++)).
Qed.

(** C5: [try_k] leaves the store as it found it, so both input tables (and
    every other frame) are unchanged after the call, whether it returns or
    raises: no ['pred'] column is written and no column is modified. *)
Theorem try_k_inputs_unchanged k w tr te σ :
  heap (try_k k w tr te σ).2 = heap σ.
Proof. symmetry. apply (steady_related eq), try_k_steady. Qed.

(** C4: for K ≥ 1, a weighting among ['uniform'] and ['distance'] and
    non-empty labelled tables that the classifier fits and labels, [try_k]
    returns the pair of the training and the testing error, each one less
    the fraction of the table's rows whose predicted type equals the actual
    type, and each between 0 and 1. *)
Theorem try_k_error_rates k w tr te σ dtr dte c p_tr p_te :
  (1 ≤ k)%Z → w = "uniform" ∨ w = "distance" →
  heap σ !! tr = Some dtr → heap σ !! te = Some dte →
  labelled dtr → labelled dte → 0 < nrows dtr → 0 < nrows dte →
  fit k w (coords dtr) (col dtr "type") = inr c →
  predict c (coords dtr) = inr p_tr →
  predict c (coords dte) = inr p_te →
  ∃ train_error test_error,
    (try_k k w tr te σ).1 = inr (train_error, test_error)
    ∧ train_error = error_rate dtr p_tr
    ∧ test_error = error_rate dte p_te
    ∧ (0 <= train_error <= 1)%Q ∧ (0 <= test_error <= 1)%Q.
Proof.
  intros _ _ Htr Hte Hdtr Hdte _ _ Hfit Hp Hp'.
  rewrite (try_k_run _ _ _ _ _ _ _ _ _ _ Htr Hte Hdtr Hdte Hfit Hp Hp').
  destruct Hdtr as (Hwf & Hlat & Hlon & Hty).
  destruct Hdte as (Hwf' & Hlat' & Hlon' & Hty').
  eexists _, _. split; [done|].
  split; [|split; [|split]].
  - apply accuracy_score_error_rate; [done..|].
    by rewrite (predict_length _ _ _ Hp), coords_length.
  - apply accuracy_score_error_rate; [done..|].
    by rewrite (predict_length _ _ _ Hp'), coords_length.
  - apply error_bounds, accuracy_score_bounds.
  - apply error_bounds, accuracy_score_bounds.
Qed.


(** ** The error table *)

Lemma fit_ks_app evs evs' : fit_ks (evs ++ evs') = fit_ks evs ++ fit_ks evs'.
Proof. apply omap_app. Qed.

Lemma try_k_range_steady ks w tr te : steady eq (try_k_range ks w tr te).
Proof.
  unfold try_k_range. steady_step.
  unfold try_k_range_body. repeat steady_step.
Qed.

(** One round of the loop fills row [i] of the table. *)
Lemma try_k_range_body_run ks w tr te i k e filled rest σ σ1 :
  ks !! i = Some k → length filled = i →
  try_k k w tr te σ = (inr e, σ1) →
  try_k_range_body ks w tr te i
    (mkArray (length ks, 3) (filled ++ [0; 0; 0]%Q :: rest)) σ =
  (inr (mkArray (length ks, 3) (filled ++ [inject_Z k; e.1; e.2] :: rest)), σ1).
Proof.
  intros Hk Hlen Hrun. pose proof (lookup_lt_Some _ _ _ Hk) as Hi.
  unfold try_k_range_body, list_getitem, lift, mbind, M_bind; cbn.
  rewrite Hk, Hrun; cbn.
  unfold nd_setitem; cbn.
  rewrite !decide_True by (cbn; lia); cbn.
  subst i. rewrite <- (Nat.add_0_r (length filled)).
  by rewrite !alter_app_r.
Qed.

Lemma try_k_range_loop ks w tr te σ :
  (∀ k, k ∈ ks → ∃ e, (try_k k w tr te σ).1 = inr e) →
  ∀ m i filled σ1,
    heap σ1 = heap σ → length filled = i → i + m = length ks →
    ∃ σ2,
      for_each (seq i m) (try_k_range_body ks w tr te)
        (mkArray (length ks, 3) (filled ++ replicate m [0; 0; 0]%Q)) σ1 =
      (inr (mkArray (length ks, 3)
              (filled ++ ((λ k, error_row k (try_k k w tr te σ).1)
                            <$> drop i ks))), σ2)
      ∧ heap σ2 = heap σ
      ∧ trace σ2 = trace σ1 ++ (drop i ks ≫= try_k_calls (heap σ) w tr te).
Proof.
  intros Hok. induction m as [|m IH]; intros i filled σ1 Hh Hlen Hm.
  - exists σ1. rewrite drop_ge by lia. cbn. by rewrite !app_nil_r.
  - destruct (lookup_lt_is_Some_2 ks i) as [k Hk]; [lia|].
    destruct (Hok k) as [e He]; [by eapply list_elem_of_lookup_2|].
    destruct (try_k k w tr te σ1) as [r σ1'] eqn:Hrun.
    pose proof (steady_result eq _ σ1 σ (try_k_steady k w tr te) Hh) as Hr.
    rewrite Hrun, He in Hr; cbn in Hr; subst r.
    pose proof (steady_related eq _ σ1 (try_k_steady k w tr te)) as Hh'.
    rewrite Hrun, Hh in Hh'; cbn in Hh'. symmetry in Hh'.
    pose proof (try_k_trace k w tr te σ1 e) as Htr.
    rewrite Hrun, Hh in Htr; cbn in Htr. specialize (Htr eq_refl).
    destruct (IH (S i) (filled ++ [[inject_Z k; e.1; e.2]]) σ1')
      as (σ2 & Hloop & Hh2 & Ht2);
      [done | rewrite length_app; cbn; lia | lia |].
    exists σ2. split_and!.
    + cbn [seq for_each replicate]. unfold mbind at 1, M_bind at 1.
      rewrite (try_k_range_body_run _ _ _ _ _ k e _ _ _ σ1') by done.
      rewrite <- (assoc_L (++)) in Hloop. cbn in Hloop. rewrite Hloop.
      rewrite (drop_S _ _ _ Hk). cbn. rewrite He. cbn.
      by rewrite <- (assoc_L (++)).
    + done.
    + rewrite Ht2, Htr, (drop_S _ _ _ Hk). cbn.
      by rewrite <- !(assoc_L (++)).
Qed.

Lemma fit_ks_try_k_calls h w tr te ks :
  fit_ks (ks ≫= try_k_calls h w tr te) = ks.
Proof.
  induction ks as [|k ks IH]; [done|].
  by rewrite bind_cons, fit_ks_app, IH.
Qed.

Lemma scatter_xs_try_k_calls h w tr te ks :
  scatter_xs (ks ≫= try_k_calls h w tr te) = [].
Proof.
  induction ks as [|k ks IH]; [done|].
  rewrite bind_cons. unfold scatter_xs in *. by rewrite omap_app, IH.
Qed.

(** The table [try_k_range] returns and the calls it logs. *)
Lemma try_k_range_run ks w tr te σ :
  (∀ k, k ∈ ks → ∃ e, (try_k k w tr te σ).1 = inr e) →
  ∃ σ',
    try_k_range ks w tr te σ =
    (inr (mkArray (length ks, 3)
            ((λ k, error_row k (try_k k w tr te σ).1) <$> ks)), σ')
    ∧ heap σ' = heap σ
    ∧ trace σ' = trace σ ++ (ks ≫= try_k_calls (heap σ) w tr te).
Proof.
  intros Hok.
  destruct (try_k_range_loop ks w tr te σ Hok (length ks) 0 [] σ)
    as (σ' & Hrun & Hh & Ht); [done..|].
  cbn in Hrun. rewrite drop_0 in Hrun, Ht. by exists σ'.
Qed.

Lemma nd_col_error_rows ks w tr te σ n :
  (∀ k, k ∈ ks → ∃ e, (try_k k w tr te σ).1 = inr e) →
  nd_col (mkArray n ((λ k, error_row k (try_k k w tr te σ).1) <$> ks)) 0
  = inject_Z <$> ks.
Proof.
  intros Hok. unfold nd_col; cbn. rewrite <- list_fmap_compose.
  apply list_fmap_ext. intros i k Hk. cbn.
  destruct (Hok k) as [e ->]; [by eapply list_elem_of_lookup_2|]. done.
Qed.

(** C3: when [try_k] returns for every K of the list, [try_k_range] returns
    a table of shape (n, 3) with one row per entry of the list, in the
    order of the list; the first column is the list of K values and the
    other two are the errors [try_k] returns for that K.  [try_k] is run
    once per entry: the calls logged are those of one [try_k] per entry, so
    the classifier is fitted with the K values of the list in order,
    repeated values included. *)
Theorem try_k_range_table ks w tr te σ :
  (∀ k, k ∈ ks → ∃ e, (try_k k w tr te σ).1 = inr e) →
  ∃ errors σ',
    try_k_range ks w tr te σ = (inr errors, σ')
    ∧ shape errors = (length ks, 3)
    ∧ length (data errors) = length ks
    ∧ nd_col errors 0 = inject_Z <$> ks
    ∧ data errors = (λ k, error_row k (try_k k w tr te σ).1) <$> ks
    ∧ heap σ' = heap σ
    ∧ trace σ' = trace σ ++ (ks ≫= try_k_calls (heap σ) w tr te)
    ∧ fit_ks (ks ≫= try_k_calls (heap σ) w tr te) = ks.
Proof.
  intros Hok.
  destruct (try_k_range_run ks w tr te σ Hok) as (σ' & Hrun & Hh & Ht).
  eexists _, σ'. split; [exact Hrun|]. cbn.
  split_and!; try done.
  - by rewrite length_fmap.
  - by apply (nd_col_error_rows _ _ _ _ _ (length ks, 3)).
  - apply fit_ks_try_k_calls.
Qed.

(** C10: on the empty list [try_k_range] returns the table of shape (0, 3)
    without rows, in the world it started from: no classifier is fitted
    and no table is read or written. *)
Theorem try_k_range_empty w tr te σ :
  try_k_range [] w tr te σ = (inr (mkArray (0, 3) []), σ).
Proof. reflexivity. Qed.


(** ** The error plot *)

(** C2: when [try_k] returns for every K from 1 to [k_max - 1],
    [plot_knn_error] returns, and the K values with which it fits the
    classifier are 1, 2, ..., [k_max - 1] in this order: the value at
    position [i] is [1 + i], there are [k_max - 1] of them (none when
    [k_max ≤ 1]) and [k_max] is not among them.  Both scatter series are
    plotted against these values. *)
Theorem plot_knn_error_ks k_max w tr te σ :
  (∀ k, (1 ≤ k < k_max)%Z → ∃ e, (try_k k w tr te σ).1 = inr e) →
  ∃ σ' evs,
    plot_knn_error k_max w tr te σ = (inr (), σ')
    ∧ trace σ' = trace σ ++ evs
    ∧ (∀ i k, fit_ks evs !! i = Some k
              ↔ k = (1 + Z.of_nat i)%Z ∧ (Z.of_nat i < k_max - 1)%Z)
    ∧ length (fit_ks evs) = Z.to_nat (k_max - 1)
    ∧ (k_max ∉ fit_ks evs)
    ∧ scatter_xs evs = [inject_Z <$> fit_ks evs; inject_Z <$> fit_ks evs].
Proof.
  intros Hok.
  assert (∀ k, k ∈ py_range 1 k_max → ∃ e, (try_k k w tr te σ).1 = inr e)
    as Hok'.
  { intros k Hk. apply Hok. apply elem_of_seqZ in Hk. lia. }
  destruct (try_k_range_run (py_range 1 k_max) w tr te σ Hok')
    as (σ1 & Hrun & _ & Ht).
  pose proof (nd_col_error_rows _ _ _ _ _ (length (py_range 1 k_max), 3) Hok')
    as Hcol.
  pose proof (fit_ks_try_k_calls (heap σ) w tr te (py_range 1 k_max)) as Hks.
  set (calls := py_range 1 k_max ≫= try_k_calls (heap σ) w tr te) in *.
  eexists _, _. split.
  { unfold plot_knn_error, mbind at 1, M_bind at 1. rewrite Hrun.
    cbv beta iota zeta. rewrite Hcol.
    unfold emit, mbind, M_bind; cbn. rewrite Ht.
    rewrite <- !(assoc_L (++)). reflexivity. }
  cbn. split; [reflexivity|].
  rewrite fit_ks_app, Hks; cbn. rewrite app_nil_r.
  split_and!.
  - intros i k. unfold py_range. rewrite lookup_seqZ. lia.
  - unfold py_range. rewrite length_seqZ. done.
  - unfold py_range. rewrite elem_of_seqZ. lia.
  - unfold scatter_xs in *. rewrite omap_app.
    fold (scatter_xs calls). unfold calls.
    by rewrite scatter_xs_try_k_calls.
Qed.

End evaluation.

(** ** Labelling the tables *)

#[local] Instance pred_only_preorder : PreOrder pred_only.
Proof.
  split.
  - intros h r df Hr. exists df. by repeat split.
  - intros h1 h2 h3 H12 H23 r df Hr.
    destruct (H12 r df Hr) as (df2 & Hr2 & Hn2 & Hc2).
    destruct (H23 r df2 Hr2) as (df3 & Hr3 & Hn3 & Hc3).
    exists df3. split; [done|]. split; [congruence|].
    intros c Hc. by rewrite Hc3, Hc2.
Qed.

Lemma pred_only_insert h r df df' :
  h !! r = Some df → same_but_pred df df' → pred_only h (<[r := df']> h).
Proof.
  intros Hr Hsame r' d Hr'. destruct (decide (r = r')) as [<-|Hne].
  - exists df'. rewrite lookup_insert_eq. by simplify_eq.
  - exists d. rewrite lookup_insert_ne by done. by repeat split.
Qed.

Lemma df_set_is_copy_steady r b : steady pred_only (df_set_is_copy r b).
Proof.
  intros h. unfold df_set_is_copy, deref, assign, mbind, M_bind; cbn.
  destruct (h !! r) as [df|] eqn:Hr.
  - exists (inr ()), (<[r := set_is_copy df b]> h), []. split.
    + by apply (pred_only_insert _ _ df).
    + intros t. by rewrite app_nil_r.
  - exists (inl (RuntimeError "no such object")), h, []. split; [done|].
    intros t. by rewrite app_nil_r.
Qed.

Lemma df_setitem_pred_steady r values :
  steady pred_only (df_setitem r "pred" values).
Proof.
  intros h. unfold df_setitem, deref, assign, lift, setitem, mbind, M_bind; cbn.
  destruct (h !! r) as [df|] eqn:Hr; [case_decide|].
  - exists (inr ()),
      (<[r := mkDataFrame (nrows df) (<["pred" := values]> (columns df))
               (is_copy df)]> h), []. split.
    + apply (pred_only_insert _ _ df); [done|]. split; [done|].
      intros c Hc. cbn. by rewrite lookup_insert_ne.
    + intros t. by rewrite app_nil_r.
  - eexists (inl _), h, []. split; [done|]. intros t. by rewrite app_nil_r.
  - eexists (inl _), h, []. split; [done|]. intros t. by rewrite app_nil_r.
Qed.

(** Case analysis on the next thing a run inspects, unless its value is
    known already. *)
Ltac step_in E :=
  match type of E with
  | context [match ?x with _ => _ end] =>
      lazymatch x with
      | context [match _ with _ => _ end] => fail
      | _ =>
          first [ match goal with H : x = _ |- _ => rewrite H in E end
                | destruct x eqn:? ];
          cbn in E
      end
  end.

(** Replay a run in the goal with the values found so far. *)
Ltac replay :=
  repeat (cbn;
          first [ rewrite lookup_insert_eq
                | rewrite lookup_insert_ne by done
                | match goal with
                  | H : _ !! _ = _ |- _ => rewrite H
                  | H : fit _ _ _ _ = _ |- _ => rewrite H
                  | H : predict _ _ = _ |- _ => rewrite H
                  | H : decide _ = _ |- _ => rewrite H
                  end ]).

Section labelling.
Context `{Classifier}.

Lemma predict_types_steady k w tr te :
  steady pred_only (predict_types k w tr te).
Proof.
  unfold predict_types, df_getitem2, df_getattr, clf_fit, clf_predict.
  repeat first [ apply df_set_is_copy_steady | apply df_setitem_pred_steady
               | steady_step ].
Qed.

(** C9: whatever [predict_types] does, every frame of the store, the two
    input tables among them, keeps its number of rows and every column
    other than ['pred'] (['lat'], ['lon'] and ['type'] included). *)
Theorem predict_types_frame k w tr te σ r df :
  heap σ !! r = Some df →
  ∃ df', heap (predict_types k w tr te σ).2 !! r = Some df'
         ∧ nrows df' = nrows df
         ∧ ∀ c, c ≠ "pred" → columns df' !! c = columns df !! c.
Proof.
  intros Hr.
  by apply (steady_related pred_only _ σ (predict_types_steady k w tr te)).
Qed.

(** C6: on tables that the classifier accepts, [predict_types] fits one
    classifier on the (lat, lon) rows and the types of the training table
    and asks it for the labels of the rows of each table; it returns with
    the ['pred'] column of each table set to the labels predicted for that
    table's own rows, whatever ['pred'] column the table had before. *)
Theorem predict_types_labels k w tr te σ dtr dte c p_tr p_te :
  heap σ !! tr = Some dtr → heap σ !! te = Some dte →
  labelled dtr →
  wf_df dte → is_Some (columns dte !! "lat") → is_Some (columns dte !! "lon") →
  fit k w (coords dtr) (col dtr "type") = inr c →
  predict c (coords dtr) = inr p_tr →
  predict c (coords dte) = inr p_te →
  ∃ σ',
    predict_types k w tr te σ = (inr (), σ')
    ∧ trace σ' = trace σ ++ [EvFit k w (coords dtr) (col dtr "type");
                             EvPredict (coords dtr); EvPredict (coords dte)]
    ∧ heap σ' = <[te := with_pred dte p_te]> (<[tr := with_pred dtr p_tr]> (heap σ))
    ∧ columns (frame_at (heap σ') tr) !! "pred" = Some p_tr
    ∧ columns (frame_at (heap σ') te) !! "pred" = Some p_te.
Proof.
  intros Htr Hte (Hwf & Hlat & Hlon & Hty) Hwf' Hlat' Hlon' Hfit Hp Hp'.
  assert (length p_tr = nrows dtr) as Hn.
  { by rewrite (predict_length _ _ _ Hp), coords_length. }
  assert (length p_te = nrows dte) as Hn'.
  { by rewrite (predict_length _ _ _ Hp'), coords_length. }
  destruct σ as [h t]; cbn in Htr, Hte.
  assert (∀ df b, getitem2 (set_is_copy df b) "lat" "lon" = getitem2 df "lat" "lon")
    as Hic by done.
  assert (∀ df n p ic,
            getitem2 (mkDataFrame n (<["pred" := p]> (columns df)) ic) "lat" "lon"
            = getitem2 df "lat" "lon") as Hwp.
  { intros df n p ic. unfold getitem2; cbn. by rewrite !lookup_insert_ne. }
  destruct (decide (tr = te)) as [<-|Hne].
  - assert (dte = dtr) as -> by congruence.
    assert (p_te = p_tr) as -> by congruence.
    eexists. split; [|split; [|split]].
    + unfold predict_types, df_getitem2, df_getattr, df_set_is_copy, df_setitem,
        clf_fit, clf_predict, deref, assign, lift, emit, setitem, mbind, M_bind; cbn.
      repeat (first [ rewrite Htr | rewrite lookup_insert_eq | rewrite Hic | rewrite Hwp
                    | rewrite getitem2_coords by done
                    | rewrite getattr_col_some by done
                    | rewrite Hfit | rewrite Hp
                    | rewrite decide_True by done ]; cbn).
      reflexivity.
    + cbn. by rewrite <- !(assoc_L (++)).
    + cbn. by rewrite !insert_insert_eq.
    + cbn. unfold frame_at. rewrite !lookup_insert_eq; cbn.
      by rewrite !lookup_insert_eq.
  - eexists. split; [|split; [|split]].
    + unfold predict_types, df_getitem2, df_getattr, df_set_is_copy, df_setitem,
        clf_fit, clf_predict, deref, assign, lift, emit, setitem, mbind, M_bind; cbn.
      repeat (first [ rewrite Htr | rewrite Hte | rewrite lookup_insert_eq
                    | rewrite lookup_insert_ne by done | rewrite Hic | rewrite Hwp
                    | rewrite getitem2_coords by done
                    | rewrite getattr_col_some by done
                    | rewrite Hfit | rewrite Hp | rewrite Hp'
                    | rewrite decide_True by done ]; cbn).
      reflexivity.
    + cbn. by rewrite <- !(assoc_L (++)).
    + cbn. unfold with_pred, set_is_copy; cbn.
      apply map_eq. intros r.
      destruct (decide (r = te)) as [->|?]; [by simplify_map_eq|].
      destruct (decide (r = tr)) as [->|?]; by simplify_map_eq.
    + cbn. unfold frame_at.
      rewrite lookup_insert_ne, !lookup_insert_eq by done; cbn.
      by rewrite !lookup_insert_eq.
Qed.

(** C8: [predict_types] is idempotent.  The classifier being a function of
    its arguments, a second call with the same arguments, made in the world
    the first call left, has the same outcome as the first and leaves the
    store exactly as the first call left it; in particular the ['pred']
    columns are the same after both calls. *)
Theorem predict_types_idempotent k w tr te σ :
  let first := predict_types k w tr te σ in
  let second := predict_types k w tr te first.2 in
  second.1 = first.1 ∧ heap second.2 = heap first.2.
Proof.
  destruct σ as [h t]. cbv zeta.
  destruct (predict_types k w tr te (mkWorld h t)) as [r1 σ1] eqn:E1.
  cbn [fst snd].
  unfold predict_types, df_getitem2, df_getattr, df_set_is_copy, df_setitem,
    clf_fit, clf_predict, deref, assign, lift, emit, getitem2, getattr_col,
    setitem, mbind, M_bind in *; cbn in E1.
  destruct (decide (tr = te)) as [<-|Hne].
  - repeat first
      [ rewrite lookup_insert_eq in E1; cbn in E1
      | rewrite lookup_insert_ne in E1 by done; cbn in E1
      | step_in E1 ].
    all: simplify_eq; cbn.
    all: replay.
    all: split; [done|]; cbn; unfold set_is_copy; cbn.
    all: by rewrite ?insert_insert_eq.
  - repeat first
      [ rewrite lookup_insert_eq in E1; cbn in E1
      | rewrite lookup_insert_ne in E1 by done; cbn in E1
      | step_in E1 ].
    all: simplify_eq; cbn.
    all: replay.
    all: split; [done|]; cbn; unfold set_is_copy; cbn.
    all: apply map_eq; intros r.
    all: destruct (decide (r = te)) as [->|?];
      [simplify_map_eq; by rewrite ?insert_insert_eq|].
    all: destruct (decide (r = tr)) as [->|?];
      simplify_map_eq; by rewrite ?insert_insert_eq.
Qed.

End labelling.

(** ** Logged calls *)

Section logs.
Context (P : event → Prop).

Lemma logs_ret {A} (a : A) : logs P (mret a).
Proof. intros σ. exists []. by rewrite app_nil_r. Qed.

Lemma logs_lift {A} (r : exn + A) : logs P (lift r).
Proof. intros σ. exists []. by rewrite app_nil_r. Qed.

Lemma logs_raise {A} (e : exn) : logs P (raise (A:=A) e).
Proof. intros σ. exists []. by rewrite app_nil_r. Qed.

Lemma logs_emit ev : P ev → logs P (emit ev).
Proof. intros Hev σ. exists [ev]. split; [done|]. by constructor. Qed.

Lemma logs_deref r : logs P (deref r).
Proof.
  intros σ. exists []. unfold deref.
  destruct (heap σ !! r); by rewrite app_nil_r.
Qed.

Lemma logs_assign r df : logs P (assign r df).
Proof. intros σ. exists []. by rewrite app_nil_r. Qed.

Lemma logs_alloc df : logs P (alloc df).
Proof. intros σ. exists []. by rewrite app_nil_r. Qed.

Lemma logs_bind {A B} (m : M A) (f : A → M B) :
  logs P m → (∀ a, logs P (f a)) → logs P (m ≫= f).
Proof.
  intros Hm Hf σ. destruct (Hm σ) as (evs1 & E1 & HP1).
  unfold mbind, M_bind. destruct (m σ) as [[e|a] σ1]; cbn in *.
  - by exists evs1.
  - destruct (Hf a σ1) as (evs2 & E2 & HP2).
    exists (evs1 ++ evs2). rewrite E2, E1, (assoc_L (++)).
    split; [done|]. by apply Forall_app.
Qed.

Lemma logs_for_each {A S} (xs : list A) (body : A → S → M S) (s : S) :
  (∀ x s, logs P (body x s)) → logs P (for_each xs body s).
Proof.
  intros Hbody. revert s.
  induction xs as [|x xs IH]; intros s; cbn [for_each].
  - apply logs_ret.
  - apply logs_bind; [apply Hbody | apply IH].
Qed.

End logs.

Lemma logs_raise_bind {A B} P (e : exn) (f : A → M B) : logs P (raise e ≫= f).
Proof. intros σ. exists []. by rewrite app_nil_r. Qed.

Ltac logs_step :=
  first [ apply logs_raise_bind | apply logs_bind | apply logs_for_each
        | apply logs_ret | apply logs_lift | apply logs_raise
        | apply logs_emit; exact I | apply logs_deref | apply logs_assign
        | apply logs_alloc ];
  intros.

Lemma fit_ks_query_calls evs : Forall query_call evs → fit_ks evs = [].
Proof.
  induction 1 as [|ev evs Hev _ IH]; [done|].
  destruct ev; cbn in *; done.
Qed.

(** ** Predictions for map features *)

(** The rows of a frame carry the entries of its ['centers'] column, in
    order. *)
Lemma iterrows_centers df pts :
  wf_df df → columns df !! "centers" = Some (center_cell <$> pts) →
  Forall2 (λ row p, row !! "centers" = Some (center_cell p)) (iterrows df) pts.
Proof.
  intros Hwf Hc. pose proof (Hwf _ _ Hc) as Hn. cbn in Hn. rewrite length_fmap in Hn.
  unfold iterrows. apply Forall2_fmap_l.
  apply Forall2_same_length_lookup_2.
  - by rewrite length_seq.
  - intros i j p Hi Hp. apply lookup_seq in Hi as [-> _]. cbn.
    rewrite lookup_omap, Hc. cbn. by rewrite list_lookup_fmap, Hp.
Qed.

Section mapping.
Context `{Classifier}.

Lemma clf_fit_ok k w X y c σ :
  fit k w X y = inr c →
  clf_fit k w X y σ = (inr c, mkWorld (heap σ) (trace σ ++ [EvFit k w X y])).
Proof. intros Hfit. unfold clf_fit, emit, lift, mbind, M_bind. by rewrite Hfit. Qed.

Lemma geojson_predict_k_body_run gen_clf stor_clf row p g s acc σ :
  row !! "centers" = Some (center_cell p) →
  predict gen_clf (query p) = inr [g] →
  predict stor_clf (query p) = inr [s] →
  geojson_predict_k_body gen_clf stor_clf row acc σ =
  (inr (acc.1 ++ [g], acc.2 ++ [s]),
   mkWorld (heap σ) (trace σ ++ [EvPredict (query p); EvPredict (query p)])).
Proof.
  intros Hrow Hg Hs. destruct σ as [h t].
  unfold geojson_predict_k_body, clf_predict, row_getattr, lift, emit,
    mbind, M_bind; cbn.
  rewrite Hrow; cbn. fold (query p). rewrite Hg; cbn. rewrite Hs; cbn.
  by rewrite <- (assoc_L (++)).
Qed.

Lemma geojson_predict_k_loop gen_clf stor_clf rows pts gens stors :
  Forall2 (λ row p, row !! "centers" = Some (center_cell p)) rows pts →
  Forall2 (λ p g, predict gen_clf (query p) = inr [g]) pts gens →
  Forall2 (λ p s, predict stor_clf (query p) = inr [s]) pts stors →
  ∀ acc σ,
    for_each rows (geojson_predict_k_body gen_clf stor_clf) acc σ =
    (inr (acc.1 ++ gens, acc.2 ++ stors),
     mkWorld (heap σ)
       (trace σ ++ (pts ≫= λ p, [EvPredict (query p); EvPredict (query p)]))).
Proof.
  intros Hrows. revert gens stors.
  induction Hrows as [|row p rows pts Hrow _ IH]; intros gens stors Hg Hs acc σ.
  - apply Forall2_nil_inv_l in Hg as ->. apply Forall2_nil_inv_l in Hs as ->.
    destruct σ, acc. cbn. by rewrite !app_nil_r.
  - apply Forall2_cons_inv_l in Hg as (g & gens' & Hg & Hgs & ->).
    apply Forall2_cons_inv_l in Hs as (s & stors' & Hs & Hss & ->).
    cbn [for_each]. unfold mbind at 1, M_bind at 1.
    rewrite (geojson_predict_k_body_run _ _ _ p g s) by done.
    rewrite (IH _ _ Hgs Hss). cbn.
    by rewrite <- !(assoc_L (++)).
Qed.

(** C7: on a feature frame whose ['centers'] column holds the points [pts]
    and on training tables that the classifier accepts, [geojson_predict_k]
    fits one classifier on the generation table and one on the storage
    table, asks each of them for the label of every feature's point, row
    after row, and returns with the columns ['pred_gen'] and ['pred_stor']
    added to the feature frame: row [i] of each column is the label
    predicted for the point of row [i]. *)
Theorem geojson_predict_k_columns geo gen stor k w σ dgeo dgen dstor
    gen_clf stor_clf pts gens stors :
  heap σ !! geo = Some dgeo →
  heap σ !! gen = Some dgen → heap σ !! stor = Some dstor →
  labelled dgen → labelled dstor →
  wf_df dgeo → columns dgeo !! "centers" = Some (center_cell <$> pts) →
  fit k w (coords dgen) (col dgen "type") = inr gen_clf →
  fit k w (coords dstor) (col dstor "type") = inr stor_clf →
  Forall2 (λ p g, predict gen_clf (query p) = inr [g]) pts gens →
  Forall2 (λ p s, predict stor_clf (query p) = inr [s]) pts stors →
  ∃ σ',
    geojson_predict_k geo gen stor k w σ = (inr (), σ')
    ∧ heap σ' = <[geo := with_predictions dgeo gens stors]> (heap σ)
    ∧ trace σ' =
      trace σ ++ [EvFit k w (coords dgen) (col dgen "type");
                  EvFit k w (coords dstor) (col dstor "type")]
              ++ (pts ≫= λ p, [EvPredict (query p); EvPredict (query p)])
    ∧ (∀ i p, pts !! i = Some p →
         col dgeo "centers" !! i = Some (center_cell p)
         ∧ ∃ g s, gens !! i = Some g ∧ stors !! i = Some s
                  ∧ predict gen_clf (query p) = inr [g]
                  ∧ predict stor_clf (query p) = inr [s]).
Proof.
  intros Hgeo Hgen Hstor (_ & Hlat & Hlon & Hty) (_ & Hlat' & Hlon' & Hty')
    Hwf Hc Hfg Hfs Hg Hs.
  pose proof (Hwf _ _ Hc) as Hn. cbn in Hn. rewrite length_fmap in Hn.
  pose proof (Forall2_length _ _ _ Hg) as Hng.
  pose proof (Forall2_length _ _ _ Hs) as Hns.
  eexists. split; [|split; [|split]].
  - unfold geojson_predict_k.
    erewrite bind_ok by (by apply df_getitem2_ok).
    erewrite bind_ok by (by apply df_getattr_ok).
    erewrite bind_ok by (by apply clf_fit_ok).
    erewrite bind_ok by (by apply df_getitem2_ok).
    erewrite bind_ok by (by apply df_getattr_ok).
    erewrite bind_ok by (by apply clf_fit_ok).
    erewrite bind_ok by (by apply df_iterrows_ok).
    erewrite bind_ok
      by (by apply (geojson_predict_k_loop _ _ _ pts gens stors);
            [apply iterrows_centers|..]).
    erewrite bind_ok by (apply (df_setitem_ok _ dgeo); [done|cbn; lia]).
    apply df_setitem_ok; [apply lookup_insert_eq | cbn; lia].
  - cbn. unfold with_predictions. by rewrite insert_insert_eq.
  - cbn. by rewrite <- !(assoc_L (++)).
  - intros i p Hp. split.
    + unfold col. rewrite Hc; cbn. by rewrite list_lookup_fmap, Hp.
    + destruct (Forall2_lookup_l _ _ _ _ _ Hg Hp) as (g & Hgi & Hpg).
      destruct (Forall2_lookup_l _ _ _ _ _ Hs Hp) as (s & Hsi & Hps).
      by exists g, s.
Qed.

Lemma geojson_predict_k_body_logs gen_clf stor_clf row acc :
  logs query_call (geojson_predict_k_body gen_clf stor_clf row acc).
Proof. unfold geojson_predict_k_body, clf_predict. repeat logs_step. Qed.

Lemma geojson_predict_k_logs geo gen stor k w :
  logs classifier_call (geojson_predict_k geo gen stor k w).
Proof.
  unfold geojson_predict_k, geojson_predict_k_body, df_getitem2, df_getattr,
    df_iterrows, df_setitem, clf_fit, clf_predict.
  repeat logs_step.
Qed.

(** A [geojson_predict_k] that returns has fitted two classifiers, both
    with the given K, and logged nothing but classifier calls. *)
Lemma geojson_predict_k_fits geo gen stor k w σ σ1 :
  geojson_predict_k geo gen stor k w σ = (inr (), σ1) →
  ∃ evs, trace σ1 = trace σ ++ evs ∧ fit_ks evs = [k; k].
Proof.
  intros E. unfold geojson_predict_k, df_getitem2, df_getattr, df_iterrows,
    df_setitem, clf_fit in E.
  inv_run E.
  match goal with
  | E : for_each ?rows ?body ?acc ?σa = (_, ?σb) |- _ =>
      destruct (logs_for_each query_call rows body acc
                  (geojson_predict_k_body_logs _ _) σa) as (evs & Ht & Hq);
      rewrite E in Ht; cbn in Ht
  end.
  eexists. rewrite Ht, <- !(assoc_L (++)). split; [reflexivity|].
  cbn. by rewrite fit_ks_query_calls.
Qed.

Context `{GeoServices}.

(** With a kind that is neither ['gen'] nor ['stor'] the choice of the
    colour table raises. *)
Lemma prediction_map_k_invalid geoj k w kind :
  kind ≠ "gen" → kind ≠ "stor" →
  prediction_map_k geoj k w kind =
  (emit EvGeojsonToDf;;
   df ← lift (geojson_to_df geoj);
   geo_df ← alloc df;
   emit EvGeojsonCenters;;
   df ← deref geo_df;
   df ← lift (geojson_centers df);
   assign geo_df df;;
   geojson_predict_k geo_df gen_data stor_data k w;;
   map_colors ← raise (ValueError "Enter either 'gen' or 'stor'.");
   emit EvFoliumGeoJson;;
   lift (folium_GeoJson geoj (style_function map_colors))).
Proof.
  intros Hgen Hstor. unfold prediction_map_k.
  apply String.eqb_neq in Hgen, Hstor. by rewrite Hgen, Hstor.
Qed.

(** C1, as the code has it: with a kind that is neither ['gen'] nor
    ['stor'], [prediction_map_k] never returns a layer and never calls a
    colour table or the layer constructor, but it does not raise at once:
    the geo source is parsed first.  When parsing, the computation of the
    centres or [geojson_predict_k] raises, [prediction_map_k] raises that
    same error, in the world the failing step leaves; when the three
    succeed, the [ValueError] is raised in the world they leave, after
    both classifiers have been fitted. *)
Theorem prediction_map_k_invalid_kind geoj k w kind σ :
  kind ≠ "gen" → kind ≠ "stor" →
  let run := prediction_map_k geoj k w kind σ in
  let geo := fresh (dom (heap σ)) in
  (∃ e, run.1 = inl e)
  ∧ (∃ evs, trace run.2 = trace σ ++ EvGeojsonToDf :: evs
            ∧ Forall (λ ev, ¬ rendering_call ev) evs)
  ∧ (∀ e, geojson_to_df geoj = inl e →
       run = (inl e, mkWorld (heap σ) (trace σ ++ [EvGeojsonToDf])))
  ∧ (∀ df e,
       geojson_to_df geoj = inr df → geojson_centers df = inl e →
       run = (inl e, mkWorld (<[geo := df]> (heap σ))
                       (trace σ ++ [EvGeojsonToDf; EvGeojsonCenters])))
  ∧ (∀ df df' e σ1,
       geojson_to_df geoj = inr df → geojson_centers df = inr df' →
       geojson_predict_k geo gen_data stor_data k w
         (mkWorld (<[geo := df']> (heap σ))
            (trace σ ++ [EvGeojsonToDf; EvGeojsonCenters])) = (inl e, σ1) →
       run = (inl e, σ1))
  ∧ (∀ df df' σ1,
       geojson_to_df geoj = inr df → geojson_centers df = inr df' →
       geojson_predict_k geo gen_data stor_data k w
         (mkWorld (<[geo := df']> (heap σ))
            (trace σ ++ [EvGeojsonToDf; EvGeojsonCenters])) = (inr (), σ1) →
       run = (inl (ValueError "Enter either 'gen' or 'stor'."), σ1)
       ∧ ∃ evs, trace σ1 = trace σ ++ [EvGeojsonToDf; EvGeojsonCenters] ++ evs
                ∧ fit_ks evs = [k; k]).
Proof.
  intros Hgen Hstor. cbv zeta.
  rewrite (prediction_map_k_invalid _ _ _ _ Hgen Hstor).
  split; [|split; [|split; [|split; [|split]]]].
  - match goal with |- ∃ e, (?m σ).1 = _ => destruct (m σ) as [[e|l] σ1] eqn:E end;
      [by eauto|].
    exfalso. inv_run E.
  - erewrite bind_ok by reflexivity.
    match goal with
    | |- ∃ evs, trace (?m ?σ0).2 = _ ∧ _ =>
        assert (logs (λ ev, ¬ rendering_call ev) m) as Hlogs
    end.
    { unfold geojson_predict_k, geojson_predict_k_body, df_getitem2,
        df_getattr, df_iterrows, df_setitem, clf_fit, clf_predict.
      repeat first [ apply logs_emit; by intros [] | logs_step ]. }
    destruct (Hlogs (mkWorld (heap σ) (trace σ ++ [EvGeojsonToDf])))
      as (evs & Ht & Hevs).
    exists evs. split; [|done]. rewrite Ht. cbn.
    by rewrite <- (assoc_L (++)).
  - intros e He.
    erewrite bind_ok by reflexivity.
    apply bind_err. unfold lift. by rewrite He.
  - intros df e Hdf He.
    erewrite bind_ok by reflexivity.
    erewrite bind_ok by (unfold lift; by rewrite Hdf).
    erewrite bind_ok by reflexivity.
    erewrite bind_ok by reflexivity.
    erewrite bind_ok
      by (unfold deref; cbn; by rewrite lookup_insert_eq).
    cbn [heap trace]. rewrite <- (assoc_L (++)). cbn [app].
    apply bind_err. unfold lift. by rewrite He.
  - intros df df' e σ1 Hdf Hdf' Hrun.
    erewrite bind_ok by reflexivity.
    erewrite bind_ok by (unfold lift; by rewrite Hdf).
    erewrite bind_ok by reflexivity.
    erewrite bind_ok by reflexivity.
    erewrite bind_ok
      by (unfold deref; cbn; by rewrite lookup_insert_eq).
    erewrite bind_ok by (unfold lift; by rewrite Hdf').
    erewrite bind_ok by reflexivity.
    cbn [heap trace]. rewrite insert_insert_eq, <- (assoc_L (++)). cbn [app].
    apply bind_err. exact Hrun.
  - intros df df' σ1 Hdf Hdf' Hrun.
    split.
    + erewrite bind_ok by reflexivity.
      erewrite bind_ok by (unfold lift; by rewrite Hdf).
      erewrite bind_ok by reflexivity.
      erewrite bind_ok by reflexivity.
      erewrite bind_ok
        by (unfold deref; cbn; by rewrite lookup_insert_eq).
      erewrite bind_ok by (unfold lift; by rewrite Hdf').
      erewrite bind_ok by reflexivity.
      cbn [heap trace]. rewrite insert_insert_eq, <- (assoc_L (++)). cbn [app].
      erewrite bind_ok by exact Hrun.
      reflexivity.
    + destruct (geojson_predict_k_fits _ _ _ _ _ _ _ Hrun) as (evs & Ht & Hks).
      exists evs. split; [|done]. rewrite Ht. cbn.
      by rewrite <- (assoc_L (++)).
Qed.

End mapping.

(** ** Equality of cells *)

(** A scalar label equals itself. *)
Lemma is_label_refl v : is_label v = true → cell_eqb v v = true.
Proof.
  destruct v as [q|s|a b]; cbn; [|by rewrite String.eqb_refl|done].
  intros _. by apply Qeq_bool_iff.
Qed.

(** The cells of the data model equal themselves: none of them is a
    missing value. *)
Lemma cell_eqb_refl x : cell_eqb x x = true.
Proof.
  destruct x as [q|s|a b]; cbn.
  - by apply Qeq_bool_iff.
  - apply String.eqb_refl.
  - apply andb_true_iff. split; by apply Qeq_bool_iff.
Qed.

Lemma cell_eqb_trans x y z :
  cell_eqb x y = true → cell_eqb y z = true → cell_eqb x z = true.
Proof.
  destruct x as [p|s|a b], y as [q|t|c d], z as [r|u|e f]; cbn; try done.
  - rewrite !Qeq_bool_iff. intros -> ->. done.
  - rewrite !String.eqb_eq. congruence.
  - rewrite !andb_true_iff, !Qeq_bool_iff. intros [-> ->] [-> ->]. done.
Qed.

(** Cells equal to [x] are equal to the same cells as [x]. *)
Lemma cell_eqb_congr x y z :
  cell_eqb x y = true → cell_eqb z x = cell_eqb z y.
Proof.
  intros Hxy. apply eq_true_iff_eq. split; intros Hz.
  - by eapply cell_eqb_trans.
  - eapply cell_eqb_trans; [done|]. by rewrite cell_eqb_sym.
Qed.

(** ** Distinct values and their counts *)

Lemma filter_filter_comm {A} (p q : A → bool) (l : list A) :
  List.filter p (List.filter q l) = List.filter q (List.filter p l).
Proof.
  induction l as [|x l IH]; [done|]. cbn.
  destruct (p x) eqn:Hp, (q x) eqn:Hq; cbn; rewrite ?Hp, ?Hq, IH; done.
Qed.

Lemma filter_filter_same {A} (p : A → bool) (l : list A) :
  List.filter p (List.filter p l) = List.filter p l.
Proof.
  induction l as [|x l IH]; [done|]. cbn.
  destruct (p x) eqn:Hp; cbn; rewrite ?Hp, IH; done.
Qed.

(** Removing the cells equal to [x] before or after [unique] is the same. *)
Lemma unique_filter x l :
  List.filter (λ y, negb (cell_eqb y x)) (unique l)
  = unique (List.filter (λ y, negb (cell_eqb y x)) l).
Proof.
  induction l as [|y l IH]; [done|]. cbn.
  destruct (cell_eqb y x) eqn:Hyx; cbn.
  - rewrite <- IH.
    rewrite (List.filter_ext (λ z, negb (cell_eqb z y)) (λ z, negb (cell_eqb z x)))
      by (intros z; by rewrite (cell_eqb_congr y x z)).
    apply filter_filter_same.
  - by rewrite filter_filter_comm, IH.
Qed.

Lemma unique_cons x l :
  unique (x :: l) = x :: unique (List.filter (λ y, negb (cell_eqb y x)) l).
Proof. cbn. by rewrite unique_filter. Qed.

Lemma unique_In u l : In u (unique l) → In u l.
Proof.
  revert u. induction l as [|x l IH]; intros u; [done|]. cbn.
  intros [->|Hu]; [by left|]. right. apply IH.
  by apply List.filter_In in Hu as [? _].
Qed.

Lemma count_rows_filter x u l :
  cell_eqb u x = false →
  count_rows (List.filter (λ y, negb (cell_eqb y x)) l) u = count_rows l u.
Proof.
  intros Hux. unfold count_rows. rewrite filter_filter_comm.
  f_equal. induction l as [|y l IH]; [done|]. cbn.
  destruct (cell_eqb y u) eqn:Hyu; cbn; [|done].
  assert (cell_eqb y x = false) as ->.
  { rewrite (cell_eqb_sym y x), (cell_eqb_congr y u x Hyu).
    by rewrite cell_eqb_sym. }
  cbn. by rewrite IH.
Qed.

Lemma Forall_filter_bool {A} (P : A → Prop) (p : A → bool) (l : list A) :
  Forall P l → Forall P (List.filter p l).
Proof.
  induction 1 as [|x l Hx _ IH]; [done|]. cbn.
  destruct (p x); [by constructor | done].
Qed.

Lemma filter_partition_length {A} (p : A → bool) (l : list A) :
  length (List.filter p l) + length (List.filter (λ y, negb (p y)) l)
  = length l.
Proof.
  induction l as [|x l IH]; [done|]. cbn.
  destruct (p x); cbn; lia.
Qed.

(** When every entry equals itself, the counts of the distinct values add
    up to the number of entries. *)
Lemma sum_count_rows_unique (l : list cell) :
  Forall (λ v, cell_eqb v v = true) l →
  sum_list (count_rows l <$> unique l) = length l.
Proof.
  induction l as [l IH] using (induction_ltof1 _ (@length cell)).
  unfold ltof in IH. destruct l as [|x l]; [done|].
  intros Hl. apply Forall_cons in Hl as [Hx Hl].
  rewrite unique_cons. cbn [fmap list_fmap sum_list sum_list_with].
  set (l' := List.filter (λ y, negb (cell_eqb y x)) l).
  assert (count_rows (x :: l) <$> unique l' = count_rows l' <$> unique l')
    as ->.
  { apply list_fmap_ext. intros i u Hu.
    apply list_elem_of_lookup_2, list_elem_of_In, unique_In in Hu.
    apply List.filter_In in Hu as [_ Hu]. apply negb_true_iff in Hu.
    unfold l'. rewrite count_rows_filter by done.
    unfold count_rows. cbn. rewrite cell_eqb_sym. by rewrite Hu. }
  rewrite IH.
  - unfold count_rows, l'. cbn. rewrite Hx. cbn.
    pose proof (filter_partition_length (λ y, cell_eqb y x) l). lia.
  - unfold l'. cbn. pose proof (List.filter_length_le (λ y, negb (cell_eqb y x)) l).
    lia.
  - by apply Forall_filter_bool.
Qed.

Lemma distinct_filter p l : distinct l → distinct (List.filter p l).
Proof.
  induction 1 as [|x l Hx _ IH]; cbn; [constructor|].
  destruct (p x); [|done]. constructor; [|done].
  by apply Forall_filter_bool.
Qed.

Lemma unique_distinct l : distinct (unique l).
Proof.
  induction l as [|x l IH]; cbn; [constructor|].
  constructor; [|by apply distinct_filter].
  apply List.Forall_forall. intros y Hy.
  apply List.filter_In in Hy as [_ Hy]. apply negb_true_iff in Hy.
  by rewrite cell_eqb_sym.
Qed.

(** Every cell of the list that equals itself is equal to one of the
    distinct values. *)
Lemma unique_covers l v :
  cell_eqb v v = true → In v l → ∃ u, In u (unique l) ∧ cell_eqb v u = true.
Proof.
  intros Hvv. induction l as [|x l IH]; [done|]. intros [->|Hv].
  - exists v. split; [by left | done].
  - destruct (IH Hv) as (u & Hu & Hvu). cbn.
    destruct (cell_eqb u x) eqn:Hux.
    + exists x. split; [by left|]. by eapply cell_eqb_trans.
    + exists u. split; [|done]. right. apply List.filter_In.
      split; [done|]. by rewrite Hux.
Qed.

Lemma count_rows_pos l u :
  cell_eqb u u = true → In u l → 1 ≤ count_rows l u.
Proof.
  intros Huu Hu. unfold count_rows.
  assert (In u (List.filter (λ v, cell_eqb v u) l)) as Hin.
  { by apply List.filter_In. }
  destruct (List.filter _ l); [done | cbn; lia].
Qed.

(** The lines [print_counts] prints for a column that is there. *)
Lemma print_counts_run df name column tps out :
  getattr_col df name = inr column →
  print_counts df name tps out
  = (inr (), out ++ ((λ tp, (tp, count_rows column tp)) <$> tps)).
Proof.
  intros Hc. revert out.
  induction tps as [|tp tps IH]; intros out; cbn.
  - by rewrite app_nil_r.
  - by rewrite Hc, IH, <- (assoc_L (++)).
Qed.

(** X1: for a frame whose ['type'] column holds scalar labels only
    (strings or numbers: no missing value and no sequence), [count_types]
    prints one line for each distinct type, in the order in which the types
    first appear in the column, and no type twice; the number on a line is
    the number of rows of that type and is at least 1, every row's type is
    on some line, and the numbers add up to the number of rows. *)
Theorem count_types_lines df column out :
  wf_df df → columns df !! "type" = Some column → scalar_labels column →
  ∃ lines,
    count_types df out = (inr (), out ++ lines)
    ∧ lines.*1 = unique column
    ∧ distinct lines.*1
    ∧ Forall (λ l, l.2 = count_rows column l.1 ∧ 1 ≤ l.2) lines
    ∧ (∀ v, In v column → ∃ l, In l lines ∧ cell_eqb v l.1 = true)
    ∧ sum_list lines.*2 = nrows df.
Proof.
  intros Hwf Hc Hna. pose proof (Hwf _ _ Hc) as Hn. cbn in Hn.
  assert (getattr_col df "type" = inr column) as Hg.
  { unfold getattr_col. by rewrite Hc. }
  assert (∀ v, In v column → cell_eqb v v = true) as Hrefl.
  { intros v Hv. apply is_label_refl.
    by apply (proj1 (List.Forall_forall _ _) Hna). }
  exists ((λ tp, (tp, count_rows column tp)) <$> unique column).
  split_and!.
  - unfold count_types. rewrite Hg. by apply print_counts_run.
  - rewrite <- list_fmap_compose. apply list_fmap_id.
  - rewrite <- list_fmap_compose, list_fmap_id. apply unique_distinct.
  - apply Forall_fmap, List.Forall_forall. intros u Hu. cbn.
    split; [done|]. apply unique_In in Hu. by apply count_rows_pos; auto.
  - intros v Hv. destruct (unique_covers _ _ (Hrefl v Hv) Hv) as (u & Hu & Hvu).
    exists (u, count_rows column u). split; [|done].
    apply list_elem_of_In, list_elem_of_fmap. exists u.
    split; [done|]. by apply list_elem_of_In.
  - rewrite <- list_fmap_compose, <- Hn.
    by apply sum_count_rows_unique, List.Forall_forall.
Qed.

(** ** Labelling, then counting and evaluating *)

Lemma getitem2_is_Some df a b X :
  getitem2 df a b = inr X →
  is_Some (columns df !! a) ∧ is_Some (columns df !! b).
Proof.
  unfold getitem2.
  destruct (columns df !! a), (columns df !! b); naive_solver.
Qed.

Lemma getattr_col_is_Some df name y :
  getattr_col df name = inr y → is_Some (columns df !! name).
Proof. unfold getattr_col. destruct (columns df !! name); naive_solver. Qed.

Lemma coords_with_pred df p : coords (with_pred df p) = coords df.
Proof. unfold coords, col, with_pred; cbn. by rewrite !lookup_insert_ne. Qed.

Lemma col_with_pred df p name :
  name ≠ "pred" → col (with_pred df p) name = col df name.
Proof. intros Hne. unfold col, with_pred; cbn. by rewrite lookup_insert_ne. Qed.

Lemma with_pred_wf df p : wf_df df → length p = nrows df → wf_df (with_pred df p).
Proof.
  intros Hwf Hp c v. unfold with_pred; cbn.
  rewrite lookup_insert. case_decide; [naive_solver|]. apply Hwf.
Qed.

Lemma coords_set_is_copy df b : coords (set_is_copy df b) = coords df.
Proof. done. Qed.

Lemma coords_mk_pred df n p ic :
  coords (mkDataFrame n (<["pred" := p]> (columns df)) ic) = coords df.
Proof. unfold coords, col; cbn. by rewrite !lookup_insert_ne. Qed.

Section labelling_more.
Context `{Classifier}.

(** A [predict_types] that returns has found both tables with their
    columns, fitted the classifier and written the labels it predicts. *)
Lemma predict_types_inv k w tr te σ σ' :
  predict_types k w tr te σ = (inr (), σ') →
  ∃ dtr dte c p_tr p_te,
    heap σ !! tr = Some dtr ∧ heap σ !! te = Some dte
    ∧ is_Some (columns dtr !! "lat") ∧ is_Some (columns dtr !! "lon")
    ∧ is_Some (columns dtr !! "type")
    ∧ is_Some (columns dte !! "lat") ∧ is_Some (columns dte !! "lon")
    ∧ fit k w (coords dtr) (col dtr "type") = inr c
    ∧ predict c (coords dtr) = inr p_tr
    ∧ predict c (coords dte) = inr p_te
    ∧ length p_tr = nrows dtr ∧ length p_te = nrows dte
    ∧ heap σ' = <[te := with_pred dte p_te]> (<[tr := with_pred dtr p_tr]> (heap σ))
    ∧ heap σ' !! tr = Some (with_pred dtr p_tr)
    ∧ heap σ' !! te = Some (with_pred dte p_te).
Proof.
  intros E.
  unfold predict_types, df_getitem2, df_getattr, df_set_is_copy, df_setitem,
    clf_fit, clf_predict in E.
  inv_run E. unfold setitem in *.
  repeat case_decide; simplify_eq.
  repeat match goal with
  | H : getitem2 _ _ _ = inr _ |- _ =>
      pose proof (getitem2_is_Some _ _ _ _ H) as [? ?];
      apply getitem2_inr in H
  | H : getattr_col _ _ = inr _ |- _ =>
      pose proof (getattr_col_is_Some _ _ _ H);
      apply getattr_col_inr in H
  end.
  destruct (decide (tr = te)) as [<-|Hne]; simplify_map_eq;
    rewrite ?coords_set_is_copy, ?coords_mk_pred in *; simplify_eq.
  - eexists _, _, _, _, _. split_and!; try done.
    + unfold with_pred; cbn. by rewrite !insert_insert_eq.
    + rewrite ?lookup_insert_eq. unfold with_pred; cbn.
      by rewrite ?insert_insert_eq.
    + rewrite ?lookup_insert_eq. unfold with_pred; cbn.
      by rewrite ?insert_insert_eq.
  - eexists _, _, _, _, _. split_and!; try done.
    apply map_eq. intros r. unfold with_pred; cbn.
    destruct (decide (r = te)) as [->|?]; [by simplify_map_eq|].
    destruct (decide (r = tr)) as [->|?]; by simplify_map_eq.
Qed.

(** X2: [count_pred_types] raises [AttributeError] on a frame without a
    ['pred'] column and prints nothing; on each of the two tables of a
    [predict_types] that returned it prints one line per distinct predicted
    type, and the numbers on the lines add up to the table's number of
    rows. *)
Theorem count_pred_types_after_predict_types k w tr te σ σ' r out :
  predict_types k w tr te σ = (inr (), σ') → r = tr ∨ r = te →
  (∀ df, columns df !! "pred" = None →
     count_pred_types df out = (inl (AttributeError "pred"), out))
  ∧ ∃ df' lines,
      heap σ' !! r = Some df'
      ∧ count_pred_types df' out = (inr (), out ++ lines)
      ∧ lines.*1 = unique (col df' "pred")
      ∧ distinct lines.*1
      ∧ sum_list lines.*2 = nrows df'.
Proof.
  intros E Hr. split.
  { intros df Hdf. unfold count_pred_types, getattr_col. by rewrite Hdf. }
  destruct (predict_types_inv _ _ _ _ _ _ E)
    as (dtr & dte & c & p_tr & p_te & _ & _ & _ & _ & _ & _ & _ & _ & _ & _
        & Hn & Hn' & _ & Htr & Hte).
  assert (∃ d p, heap σ' !! r = Some (with_pred d p) ∧ length p = nrows d)
    as (d & p & Hd & Hp).
  { destruct Hr as [-> | ->]; eauto. }
  assert (getattr_col (with_pred d p) "pred" = inr p) as Hg.
  { unfold getattr_col, with_pred; cbn. by rewrite lookup_insert_eq. }
  exists (with_pred d p), ((λ tp, (tp, count_rows p tp)) <$> unique p).
  split_and!.
  - done.
  - unfold count_pred_types. rewrite Hg. by apply print_counts_run.
  - rewrite <- list_fmap_compose, list_fmap_id.
    unfold col, with_pred; cbn. by rewrite lookup_insert_eq.
  - rewrite <- list_fmap_compose, list_fmap_id. apply unique_distinct.
  - rewrite <- list_fmap_compose. cbn. rewrite <- Hp.
    apply sum_count_rows_unique, List.Forall_forall.
    intros v _. apply cell_eqb_refl.
Qed.

(** X3: in the world a returning [predict_types] leaves, [try_k] with the
    same arguments returns the error rates of the ['pred'] columns that
    were written: for each table, one less the fraction of rows whose
    ['pred'] entry equals the ['type'] entry. *)
Theorem try_k_after_predict_types k w tr te σ σ' dtr dte :
  predict_types k w tr te σ = (inr (), σ') →
  heap σ !! tr = Some dtr → heap σ !! te = Some dte →
  wf_df dtr → wf_df dte → is_Some (columns dte !! "type") →
  0 < nrows dtr → 0 < nrows dte →
  ∃ dtr' dte',
    heap σ' !! tr = Some dtr' ∧ heap σ' !! te = Some dte'
    ∧ (try_k k w tr te σ').1
      = inr (error_rate dtr' (col dtr' "pred"), error_rate dte' (col dte' "pred")).
Proof.
  intros E Htr Hte Hwf Hwf' Hty' _ _.
  destruct (predict_types_inv _ _ _ _ _ _ E)
    as (dtr0 & dte0 & c & p_tr & p_te & Htr0 & Hte0 & Hlat & Hlon & Hty
        & Hlat' & Hlon' & Hfit & Hp & Hp' & Hn & Hn' & _ & Htr' & Hte').
  simplify_eq.
  assert (∀ d p name, name ≠ "pred" → is_Some (columns d !! name) →
            is_Some (columns (with_pred d p) !! name)) as Hsome.
  { intros d p name Hne Hs. unfold with_pred; cbn. by rewrite lookup_insert_ne. }
  assert (∀ d p, col (with_pred d p) "pred" = p) as Hpred.
  { intros d p. unfold col, with_pred; cbn. by rewrite lookup_insert_eq. }
  exists (with_pred dtr p_tr), (with_pred dte p_te).
  split; [done|]. split; [done|].
  rewrite (try_k_run k w tr te σ' (with_pred dtr p_tr) (with_pred dte p_te)
             c p_tr p_te); try done.
  - cbn. rewrite !Hpred.
    rewrite !accuracy_score_error_rate; try done;
      first [ by apply with_pred_wf | by apply Hsome ].
  - split_and!; [by apply with_pred_wf | by apply Hsome..].
  - split_and!; [by apply with_pred_wf | by apply Hsome..].
  - by rewrite coords_with_pred, col_with_pred.
  - by rewrite coords_with_pred.
  - by rewrite coords_with_pred.
Qed.


(** X4: [predict_types] is not all-or-nothing.  When the training table is
    accepted by the classifier but the testing table (another frame) lacks
    ['lat'] or ['lon'], the call raises [KeyError] only after it has set
    [is_copy] on both tables and written the ['pred'] column of the
    training table: the training table stays labelled, the testing table
    gets no ['pred'] column. *)
Theorem predict_types_partial k w tr te σ dtr dte c p_tr :
  tr ≠ te →
  heap σ !! tr = Some dtr → heap σ !! te = Some dte →
  labelled dtr →
  columns dte !! "lat" = None ∨ columns dte !! "lon" = None →
  fit k w (coords dtr) (col dtr "type") = inr c →
  predict c (coords dtr) = inr p_tr →
  ∃ e σ',
    predict_types k w tr te σ = (inl e, σ')
    ∧ (e = KeyError "lat" ∨ e = KeyError "lon")
    ∧ heap σ' !! tr = Some (with_pred dtr p_tr)
    ∧ heap σ' !! te = Some (set_is_copy dte false)
    ∧ columns (set_is_copy dte false) !! "pred" = columns dte !! "pred"
    ∧ trace σ' = trace σ ++ [EvFit k w (coords dtr) (col dtr "type");
                             EvPredict (coords dtr)].
Proof.
  intros Hne Htr Hte (Hwf & Hlat & Hlon & Hty) Hmiss Hfit Hp.
  assert (length p_tr = nrows dtr) as Hn.
  { by rewrite (predict_length _ _ _ Hp), coords_length. }
  assert (∃ e, getitem2 dte "lat" "lon" = inl e
               ∧ (e = KeyError "lat" ∨ e = KeyError "lon")) as (e & He & Hor).
  { unfold getitem2.
    destruct (columns dte !! "lat"), (columns dte !! "lon"), Hmiss;
      simplify_eq; eauto. }
  destruct σ as [h t]; cbn in Htr, Hte.
  exists e. eexists. split; [|split; [done|]].
  - unfold predict_types, df_getitem2, df_getattr, df_set_is_copy, df_setitem,
      clf_fit, clf_predict, deref, assign, lift, emit, setitem, mbind, M_bind;
      cbn.
    repeat (first [ rewrite Htr | rewrite Hte | rewrite lookup_insert_eq
                  | rewrite lookup_insert_ne by done
                  | rewrite coords_set_is_copy
                  | rewrite getitem2_coords by done
                  | rewrite getattr_col_some by done
                  | rewrite Hfit | rewrite Hp
                  | rewrite decide_True by done ]; cbn).
    change (getitem2 (set_is_copy dte false) "lat" "lon")
      with (getitem2 dte "lat" "lon").
    rewrite He. reflexivity.
  - cbn. split_and!.
    + by rewrite lookup_insert_eq.
    + by rewrite lookup_insert_ne, lookup_insert_eq.
    + done.
    + by rewrite <- !(assoc_L (++)).
Qed.

(** X5: when the training table lacks ['lat'], ['lon'] or ['type'],
    and the weights are ['uniform'] or ['distance'], which the constructor
    of the classifier accepts, [try_k], [predict_types] and
    [geojson_predict_k] (for its generation table) raise the same error,
    [KeyError] for a missing coordinate column and [AttributeError] for a
    missing ['type'].  The classifier they have constructed is not fitted
    and nothing is written: no frame is changed, and no fit, predict or
    score call is made. *)
Theorem missing_training_column k w tr te geo stor σ dtr :
  w = "uniform" ∨ w = "distance" →
  heap σ !! tr = Some dtr →
  columns dtr !! "lat" = None ∨ columns dtr !! "lon" = None
  ∨ columns dtr !! "type" = None →
  ∃ e,
    (e = KeyError "lat" ∨ e = KeyError "lon" ∨ e = AttributeError "type")
    ∧ try_k k w tr te σ = (inl e, σ)
    ∧ predict_types k w tr te σ = (inl e, σ)
    ∧ geojson_predict_k geo tr stor k w σ = (inl e, σ).
Proof.
  intros _ Htr Hmiss.
  assert (df_getitem2 tr "lat" "lon" σ = (getitem2 dtr "lat" "lon", σ)) as Hget.
  { unfold df_getitem2, deref, lift, mbind, M_bind. by rewrite Htr. }
  assert (df_getattr tr "type" σ = (getattr_col dtr "type", σ)) as Hattr.
  { unfold df_getattr, deref, lift, mbind, M_bind. by rewrite Htr. }
  unfold try_k, predict_types, geojson_predict_k.
  destruct (getitem2 dtr "lat" "lon") as [e|X] eqn:E.
  - exists e. split.
    { unfold getitem2 in E.
      destruct (columns dtr !! "lat"), (columns dtr !! "lon");
        simplify_eq; auto. }
    split_and!; by apply bind_err.
  - destruct (getitem2_is_Some _ _ _ _ E) as [[? Hlat] [? Hlon]].
    assert (columns dtr !! "type" = None) as Hty
      by (destruct Hmiss as [?|[?|?]]; congruence).
    assert (getattr_col dtr "type" = inl (AttributeError "type")) as E'.
    { unfold getattr_col. by rewrite Hty. }
    rewrite E' in Hattr.
    exists (AttributeError "type"). split; [by auto|].
    split_and!; (erewrite bind_ok by done); by apply bind_err.
Qed.

End labelling_more.

(** ** Evaluation over a range of K *)

Lemma for_each_app {A S} (xs ys : list A) (body : A → S → M S) (s : S) σ :
  for_each (xs ++ ys) body s σ
  = (for_each xs body s ≫= for_each ys body) σ.
Proof.
  revert s σ. induction xs as [|x xs IH]; intros s σ; [done|].
  cbn [app for_each]. unfold mbind, M_bind in *.
  destruct (body x s σ) as [[e|s'] σ1]; [done|]. apply IH.
Qed.

Section evaluation_more.
Context `{Classifier}.

Lemma plot_knn_error_steady k_max w tr te :
  steady eq (plot_knn_error k_max w tr te).
Proof.
  unfold plot_knn_error. steady_step; [apply try_k_range_steady|].
  repeat steady_step.
Qed.

(** X7: neither [try_k_range] nor [plot_knn_error] ever changes the store:
    whatever the tables hold and whether the call returns or raises, every
    frame is afterwards what it was before. *)
Theorem evaluation_keeps_store ks k_max w tr te σ :
  heap (try_k_range ks w tr te σ).2 = heap σ
  ∧ heap (plot_knn_error k_max w tr te σ).2 = heap σ.
Proof.
  split; symmetry.
  - apply (steady_related eq), try_k_range_steady.
  - apply (steady_related eq), plot_knn_error_steady.
Qed.

(** The errors [try_k] returns lie between 0 and 1. *)
Lemma try_k_bounds k w tr te σ e :
  (try_k k w tr te σ).1 = inr e →
  (0 <= e.1 <= 1)%Q ∧ (0 <= e.2 <= 1)%Q.
Proof.
  destruct (try_k k w tr te σ) as [r σ2] eqn:E. cbn. intros ->.
  unfold try_k, df_getitem2, df_getattr, clf_fit, clf_score in E.
  inv_run E.
  repeat match goal with
  | Hs : score _ _ _ = inr _ |- _ =>
      rewrite score_accuracy in Hs;
      destruct (predict _ _) in Hs; simplify_eq
  end.
  split; apply error_bounds, accuracy_score_bounds.
Qed.

Lemma error_row_cols ks w tr te σ n :
  (∀ k, k ∈ ks → ∃ e, (try_k k w tr te σ).1 = inr e) →
  ∀ j, j = 1 ∨ j = 2 →
    length (nd_col (mkArray n ((λ k, error_row k (try_k k w tr te σ).1) <$> ks)) j)
    = length ks
    ∧ Forall (λ x, (0 <= x <= 1)%Q)
        (nd_col (mkArray n ((λ k, error_row k (try_k k w tr te σ).1) <$> ks)) j).
Proof.
  intros Hok j Hj. unfold nd_col; cbn. rewrite <- list_fmap_compose.
  split; [by rewrite length_fmap|].
  apply Forall_fmap, Forall_forall. intros k Hk. cbn.
  destruct (Hok k Hk) as [e He]. rewrite He.
  destruct (try_k_bounds _ _ _ _ _ _ He) as [H1 H2].
  destruct Hj as [-> | ->]; done.
Qed.

(** X8: when [try_k] returns for every K of the list, on non-empty
    labelled tables, the table [try_k_range] returns has one training error
    and one testing error per K, and every one of them lies between 0 and
    1. *)
Theorem try_k_range_bounds ks w tr te σ dtr dte :
  heap σ !! tr = Some dtr → heap σ !! te = Some dte →
  labelled dtr → labelled dte → 0 < nrows dtr → 0 < nrows dte →
  (∀ k, k ∈ ks → ∃ e, (try_k k w tr te σ).1 = inr e) →
  ∃ errors σ',
    try_k_range ks w tr te σ = (inr errors, σ')
    ∧ length (nd_col errors 1) = length ks
    ∧ length (nd_col errors 2) = length ks
    ∧ Forall (λ x, (0 <= x <= 1)%Q) (nd_col errors 1)
    ∧ Forall (λ x, (0 <= x <= 1)%Q) (nd_col errors 2).
Proof.
  intros _ _ _ _ _ _ Hok.
  destruct (try_k_range_run ks w tr te σ Hok) as (σ' & Hrun & _ & _).
  eexists _, σ'. split; [exact Hrun|].
  destruct (error_row_cols ks w tr te σ (length ks, 3) Hok 1) as [? ?]; [auto|].
  destruct (error_row_cols ks w tr te σ (length ks, 3) Hok 2) as [? ?]; [auto|].
  done.
Qed.

(** X9: when [try_k] returns the errors [errs] for K = 1, ..., [k_max - 1],
    [plot_knn_error] returns, changes no frame, and logs the classifier
    calls of these [try_k] runs followed by its eight plotting calls, in the
    order of the source.  Both scatter series are drawn against the K
    values 1, ..., [k_max - 1]: the red one, labelled 'Training error',
    holds the training errors and the blue one, labelled 'Testing error',
    the testing errors, one point per K and in the order of K.  Every point
    lies inside the axes the function sets: 0 < K < [k_max + 1] and
    0 ≤ error ≤ 1. *)
Theorem plot_knn_error_inside_axes k_max w tr te σ errs :
  Forall2 (λ k e, (try_k k w tr te σ).1 = inr e) (py_range 1 k_max) errs →
  let ks := py_range 1 k_max in
  let xs := inject_Z <$> ks in
  plot_knn_error k_max w tr te σ
  = (inr (),
     mkWorld (heap σ)
       (trace σ ++ (ks ≫= try_k_calls (heap σ) w tr te)
        ++ [EvPlt (PltFigure 4 4);
            EvPlt (PltScatter xs errs.*1 "red" "Training error");
            EvPlt (PltScatter xs errs.*2 "blue" "Testing error");
            EvPlt (PltXlabel "K"); EvPlt (PltYlabel "Error rate");
            EvPlt (PltYlim 0 1); EvPlt (PltXlim 0 (k_max + 1));
            EvPlt PltLegend]))
  ∧ length xs = Z.to_nat (k_max - 1)
  ∧ length errs.*1 = length xs ∧ length errs.*2 = length xs
  ∧ Forall (λ x, (0 < x)%Q ∧ (x < inject_Z (k_max + 1))%Q) xs
  ∧ Forall (λ y, (0 <= y <= 1)%Q) errs.*1
  ∧ Forall (λ y, (0 <= y <= 1)%Q) errs.*2.
Proof.
  intros Herrs ks xs. subst xs ks.
  assert (∀ k, k ∈ py_range 1 k_max → ∃ e, (try_k k w tr te σ).1 = inr e)
    as Hok.
  { intros k Hk. apply list_elem_of_lookup in Hk as [i Hi].
    destruct (Forall2_lookup_l _ _ _ _ _ Herrs Hi) as (e & _ & He). eauto. }
  destruct (try_k_range_run _ w tr te σ Hok) as (σ1 & Hrun & Hh & Ht).
  pose proof (Forall2_length _ _ _ Herrs) as Hlen.
  assert ((λ k, error_row k (try_k k w tr te σ).1) <$> py_range 1 k_max
          = (λ ke : Z * (Q * Q), [inject_Z ke.1; ke.2.1; ke.2.2])
            <$> zip (py_range 1 k_max) errs) as Hrows.
  { clear -Herrs.
    induction Herrs as [|k e ks' errs' He _ IH]; [done|].
    cbn. rewrite He. cbn. by rewrite IH. }
  rewrite Hrows in Hrun. clear Hrows.
  set (n := (length (py_range 1 k_max), 3)) in *.
  set (rows := (λ ke : Z * (Q * Q), [inject_Z ke.1; ke.2.1; ke.2.2])
               <$> zip (py_range 1 k_max) errs) in *.
  assert (nd_col (mkArray n rows) 0 = inject_Z <$> py_range 1 k_max) as H0.
  { unfold nd_col, rows; cbn. rewrite <- list_fmap_compose.
    transitivity (inject_Z <$> (zip (py_range 1 k_max) errs).*1).
    - by rewrite <- list_fmap_compose.
    - rewrite fst_zip; [done | lia]. }
  assert (nd_col (mkArray n rows) 1 = errs.*1) as H1.
  { unfold nd_col, rows; cbn. rewrite <- list_fmap_compose.
    transitivity ((zip (py_range 1 k_max) errs).*2.*1).
    - by rewrite <- list_fmap_compose.
    - rewrite snd_zip; [done | lia]. }
  assert (nd_col (mkArray n rows) 2 = errs.*2) as H2.
  { unfold nd_col, rows; cbn. rewrite <- list_fmap_compose.
    transitivity ((zip (py_range 1 k_max) errs).*2.*2).
    - by rewrite <- list_fmap_compose.
    - rewrite snd_zip; [done | lia]. }
  assert (Forall (λ e : Q * Q, (0 <= e.1 <= 1)%Q ∧ (0 <= e.2 <= 1)%Q) errs)
    as Hb.
  { apply Forall_forall. intros e He.
    apply list_elem_of_lookup in He as [i Hi].
    destruct (Forall2_lookup_r _ _ _ _ _ Herrs Hi) as (k & _ & Hk).
    by apply (try_k_bounds k w tr te σ). }
  assert (length (inject_Z <$> py_range 1 k_max) = Z.to_nat (k_max - 1))
    as Hxs.
  { unfold py_range. by rewrite length_fmap, length_seqZ. }
  split.
  { unfold plot_knn_error, mbind at 1, M_bind at 1. rewrite Hrun.
    cbv beta iota zeta. rewrite H0, H1, H2.
    unfold emit, mbind, M_bind. cbn [heap trace].
    rewrite Hh, Ht. by rewrite <- !(assoc_L (++)). }
  split; [done|].
  split; [rewrite !length_fmap; lia|].
  split; [rewrite !length_fmap; lia|].
  split; [|split].
  - apply Forall_fmap, Forall_forall. intros k Hk.
    apply elem_of_seqZ in Hk. cbn beta.
    split; [change 0%Q with (inject_Z 0)|]; rewrite <- Zlt_Qlt; lia.
  - apply Forall_fmap. eapply Forall_impl; [exact Hb|]. by intros e [? _].
  - apply Forall_fmap. eapply Forall_impl; [exact Hb|]. by intros e [_ ?].
Qed.

(** X10: with [k_max ≤ 1] there is no K to try: [plot_knn_error] returns
    without reading a table or calling the classifier, whatever the two
    tables hold, and draws the axes with two empty scatter series. *)
Theorem plot_knn_error_no_k k_max w tr te σ :
  (k_max ≤ 1)%Z →
  plot_knn_error k_max w tr te σ
  = (inr (),
     mkWorld (heap σ)
       (trace σ ++ [EvPlt (PltFigure 4 4);
                    EvPlt (PltScatter [] [] "red" "Training error");
                    EvPlt (PltScatter [] [] "blue" "Testing error");
                    EvPlt (PltXlabel "K"); EvPlt (PltYlabel "Error rate");
                    EvPlt (PltYlim 0 1); EvPlt (PltXlim 0 (k_max + 1));
                    EvPlt PltLegend])).
Proof.
  intros Hk.
  assert (py_range 1 k_max = []) as Hnil.
  { unfold py_range, seqZ. by replace (Z.to_nat (k_max - 1)) with 0 by lia. }
  assert (try_k_range [] w tr te σ = (inr (mkArray (0, 3) []), σ)) as Hrun
    by reflexivity.
  unfold plot_knn_error, mbind at 1, M_bind at 1. rewrite Hnil, Hrun.
  cbv beta iota zeta. unfold emit, mbind, M_bind, nd_col.
  cbn [heap trace data fmap list_fmap].
  by rewrite <- !(assoc_L (++)).
Qed.

(** The K values of the fits one [try_k] logs: none or its own K. *)
Lemma try_k_fit_ks k w tr te σ :
  ∃ evs, trace (try_k k w tr te σ).2 = trace σ ++ evs
         ∧ (fit_ks evs = [] ∨ fit_ks evs = [k]).
Proof.
  destruct σ as [h t].
  destruct (try_k k w tr te (mkWorld h t)) as [r σ2] eqn:E.
  unfold try_k, df_getitem2, df_getattr, clf_fit, clf_score, deref, lift,
    emit, mbind, M_bind, mret, M_ret in E; cbn in E.
  repeat step_in E.
  all: simplify_eq; cbn [snd trace]; rewrite <- ?(assoc_L (++)).
  all: first [ by exists []; rewrite app_nil_r; auto
             | eexists; split; [reflexivity|]; cbn; by auto ].
Qed.

Lemma try_k_range_body_err ks w tr te i k e arr σ σ1 :
  ks !! i = Some k → try_k k w tr te σ = (inl e, σ1) →
  try_k_range_body ks w tr te i arr σ = (inl e, σ1).
Proof.
  intros Hk Hrun.
  unfold try_k_range_body, list_getitem, lift, mbind, M_bind; cbn.
  by rewrite Hk, Hrun.
Qed.

(** The first [m] rounds of the loop, from index [i] on. *)
Lemma try_k_range_prefix ks w tr te σ :
  ∀ m i filled rest σ1,
    heap σ1 = heap σ → length filled = i → i + m ≤ length ks →
    (∀ j k, i ≤ j < i + m → ks !! j = Some k →
            ∃ e, (try_k k w tr te σ).1 = inr e) →
    ∃ σ2,
      for_each (seq i m) (try_k_range_body ks w tr te)
        (mkArray (length ks, 3) (filled ++ replicate m [0; 0; 0]%Q ++ rest)) σ1 =
      (inr (mkArray (length ks, 3)
              (filled ++ ((λ k, error_row k (try_k k w tr te σ).1)
                            <$> take m (drop i ks)) ++ rest)), σ2)
      ∧ heap σ2 = heap σ
      ∧ trace σ2
        = trace σ1 ++ (take m (drop i ks) ≫= try_k_calls (heap σ) w tr te).
Proof.
  induction m as [|m IH]; intros i filled rest σ1 Hh Hlen Hm Hok.
  - exists σ1. cbn. by rewrite !app_nil_r.
  - destruct (lookup_lt_is_Some_2 ks i) as [k Hk]; [lia|].
    destruct (Hok i k) as [e He]; [lia | done |].
    destruct (try_k k w tr te σ1) as [r σ1'] eqn:Hrun.
    pose proof (steady_result eq _ σ1 σ (try_k_steady k w tr te) Hh) as Hr.
    rewrite Hrun, He in Hr; cbn in Hr; subst r.
    pose proof (steady_related eq _ σ1 (try_k_steady k w tr te)) as Hh'.
    rewrite Hrun, Hh in Hh'; cbn in Hh'. symmetry in Hh'.
    pose proof (try_k_trace k w tr te σ1 e) as Htr.
    rewrite Hrun, Hh in Htr; cbn in Htr. specialize (Htr eq_refl).
    destruct (IH (S i) (filled ++ [[inject_Z k; e.1; e.2]]) rest σ1')
      as (σ2 & Hloop & Hh2 & Ht2);
      [done | rewrite length_app; cbn; lia | lia | |].
    { intros j k' Hj Hk'. apply (Hok j k'); [lia | done]. }
    exists σ2. split_and!.
    + cbn [seq for_each replicate app]. unfold mbind at 1, M_bind at 1.
      rewrite (try_k_range_body_run _ _ _ _ _ k e _ _ _ σ1') by done.
      rewrite <- (assoc_L (++)) in Hloop. cbn in Hloop. rewrite Hloop.
      rewrite (drop_S _ _ _ Hk). cbn. rewrite He. cbn.
      by rewrite <- (assoc_L (++)).
    + done.
    + rewrite Ht2, Htr, (drop_S _ _ _ Hk). cbn.
      by rewrite <- !(assoc_L (++)).
Qed.

(** X6: [try_k_range] stops at the first K for which [try_k] raises.  When
    [try_k] returns for the entries before position [i] and raises [e] for
    the entry at position [i], [try_k_range] raises [e] and returns no
    table; the store is unchanged, and the classifier has been fitted for
    the K values before position [i], at most once more for the K at
    position [i], and for no later entry. *)
Theorem try_k_range_first_failure ks w tr te σ i k e :
  ks !! i = Some k →
  (∀ j k', j < i → ks !! j = Some k' →
           ∃ e', (try_k k' w tr te σ).1 = inr e') →
  (try_k k w tr te σ).1 = inl e →
  ∃ σ' evs,
    try_k_range ks w tr te σ = (inl e, σ')
    ∧ heap σ' = heap σ
    ∧ trace σ' = trace σ ++ evs
    ∧ (fit_ks evs = take i ks ∨ fit_ks evs = take (S i) ks).
Proof.
  intros Hk Hok He. pose proof (lookup_lt_Some _ _ _ Hk) as Hi.
  destruct (try_k_range_prefix ks w tr te σ i 0 []
              (replicate (length ks - i) [0; 0; 0]%Q) σ)
    as (σ2 & Hloop & Hh2 & Ht2); [done | done | lia | |].
  { intros j k' Hj Hk'. apply (Hok j k'); [lia | done]. }
  rewrite drop_0 in Hloop, Ht2. cbn [app] in Hloop.
  destruct (try_k k w tr te σ2) as [r σ3] eqn:Hrun.
  pose proof (steady_result eq _ σ2 σ (try_k_steady k w tr te) Hh2) as Hr.
  rewrite Hrun, He in Hr; cbn in Hr; subst r.
  pose proof (steady_related eq _ σ2 (try_k_steady k w tr te)) as Hh3.
  rewrite Hrun, Hh2 in Hh3; cbn in Hh3.
  destruct (try_k_fit_ks k w tr te σ2) as (evs_k & Ht3 & Hks).
  rewrite Hrun in Ht3; cbn in Ht3.
  exists σ3, ((take i ks ≫= try_k_calls (heap σ) w tr te) ++ evs_k).
  split_and!.
  - assert (seq 0 (length ks) = seq 0 i ++ i :: seq (S i) (length ks - S i))
      as Hseq.
    { replace (length ks) with (i + S (length ks - S i)) at 1 by lia.
      by rewrite seq_app. }
    assert (replicate (length ks) [0; 0; 0]%Q
            = replicate i [0; 0; 0]%Q ++ replicate (length ks - i) [0; 0; 0]%Q)
      as Hrep.
    { rewrite <- replicate_add. f_equal. lia. }
    unfold try_k_range, np_zeros.
    change (replicate 3 0%Q) with [0; 0; 0]%Q.
    rewrite Hseq, Hrep, for_each_app.
    unfold mbind at 1, M_bind at 1. rewrite Hloop. cbn [for_each].
    unfold mbind, M_bind.
    by rewrite (try_k_range_body_err _ _ _ _ _ k e _ _ σ3).
  - done.
  - by rewrite Ht3, Ht2, <- (assoc_L (++)).
  - rewrite fit_ks_app, fit_ks_try_k_calls, (take_S_r _ _ _ Hk).
    destruct Hks as [-> | ->]; [left; by rewrite app_nil_r | by right].
Qed.

End evaluation_more.

(** ** Labelling does not change the evaluation *)

#[local] Instance same_inputs_preorder : PreOrder same_inputs.
Proof.
  split.
  - intros h r. destruct (h !! r); constructor. by split.
  - intros h1 h2 h3 H12 H23 r. specialize (H12 r). specialize (H23 r).
    destruct H12 as [d1 d2 [Hn Hc]|]; inversion H23 as [? d3 [Hn' Hc'] |];
      simplify_eq; constructor.
    split; [congruence|]. intros c Hne. by rewrite Hc', Hc.
Qed.

Lemma same_inputs_insert h r df df' :
  h !! r = Some df → same_but_pred df df' → same_inputs h (<[r := df']> h).
Proof.
  intros Hr Hsame r'. destruct (decide (r = r')) as [<-|Hne].
  - rewrite lookup_insert_eq, Hr. by constructor.
  - rewrite lookup_insert_ne by done. destruct (h !! r'); constructor.
    by split.
Qed.

Lemma df_set_is_copy_same_inputs r b : steady same_inputs (df_set_is_copy r b).
Proof.
  intros h. unfold df_set_is_copy, deref, assign, mbind, M_bind; cbn.
  destruct (h !! r) as [df|] eqn:Hr.
  - exists (inr ()), (<[r := set_is_copy df b]> h), []. split.
    + by apply (same_inputs_insert _ _ df).
    + intros t. by rewrite app_nil_r.
  - exists (inl (RuntimeError "no such object")), h, []. split; [done|].
    intros t. by rewrite app_nil_r.
Qed.

Lemma df_setitem_pred_same_inputs r values :
  steady same_inputs (df_setitem r "pred" values).
Proof.
  intros h. unfold df_setitem, deref, assign, lift, setitem, mbind, M_bind; cbn.
  destruct (h !! r) as [df|] eqn:Hr; [case_decide|].
  - exists (inr ()),
      (<[r := mkDataFrame (nrows df) (<["pred" := values]> (columns df))
               (is_copy df)]> h), []. split.
    + apply (same_inputs_insert _ _ df); [done|]. split; [done|].
      intros c Hc. cbn. by rewrite lookup_insert_ne.
    + intros t. by rewrite app_nil_r.
  - eexists (inl _), h, []. split; [done|]. intros t. by rewrite app_nil_r.
  - eexists (inl _), h, []. split; [done|]. intros t. by rewrite app_nil_r.
Qed.

Section commute.
Context `{Classifier}.

Lemma predict_types_same_inputs k w tr te :
  steady same_inputs (predict_types k w tr te).
Proof.
  unfold predict_types, df_getitem2, df_getattr, clf_fit, clf_predict.
  repeat first [ apply df_set_is_copy_same_inputs
               | apply df_setitem_pred_same_inputs | steady_step ].
Qed.

Lemma same_but_pred_getitem2 df df' :
  same_but_pred df df' → getitem2 df' "lat" "lon" = getitem2 df "lat" "lon".
Proof. intros [_ Hc]. unfold getitem2. by rewrite !Hc. Qed.

Lemma same_but_pred_type df df' :
  same_but_pred df df' → getattr_col df' "type" = getattr_col df "type".
Proof. intros [_ Hc]. unfold getattr_col. by rewrite Hc. Qed.

(** What [try_k] returns depends on the ['lat'], ['lon'] and ['type']
    columns of its tables only. *)
Lemma try_k_same_inputs k w tr te σ σ' :
  same_inputs (heap σ) (heap σ') →
  (try_k k w tr te σ').1 = (try_k k w tr te σ).1.
Proof.
  destruct σ as [h t], σ' as [h' t']. cbn [heap]. intros Hs.
  pose proof (Hs tr) as Htr. pose proof (Hs te) as Hte.
  unfold try_k, df_getitem2, df_getattr, clf_fit, clf_score, deref, lift,
    emit, mbind, M_bind, mret, M_ret; cbn.
  destruct (h !! tr) as [dtr|] eqn:E1, (h' !! tr) as [dtr'|] eqn:E1';
    inversion Htr as [? ? Hsame|]; subst; cbn; [|done].
  rewrite (same_but_pred_getitem2 _ _ Hsame).
  destruct (getitem2 dtr "lat" "lon") as [?|X]; cbn; [done|].
  rewrite E1, E1'; cbn. rewrite (same_but_pred_type _ _ Hsame).
  destruct (getattr_col dtr "type") as [?|y]; cbn; [done|].
  destruct (fit k w X y) as [?|c]; cbn; [done|].
  destruct (h !! te) as [dte|] eqn:E2, (h' !! te) as [dte'|] eqn:E2';
    inversion Hte as [? ? Hsame'|]; subst; cbn; [|done].
  rewrite (same_but_pred_getitem2 _ _ Hsame').
  destruct (getitem2 dte "lat" "lon") as [?|X']; cbn; [done|].
  rewrite E2, E2'; cbn. rewrite (same_but_pred_type _ _ Hsame').
  destruct (getattr_col dte "type") as [?|y']; cbn; [done|].
  destruct (score c X y) as [?|s]; cbn; [done|].
  destruct (score c X' y') as [?|s']; cbn; done.
Qed.

(** X15: labelling the tables does not change what [try_k] reports.
    Whatever [predict_types] did (with any K, weighting and tables, and
    whether it returned or raised), a [try_k] run afterwards has the same
    outcome, errors or exception, as the same [try_k] run before. *)
Theorem try_k_after_any_predict_types k w tr te k' w' tr' te' σ :
  (try_k k' w' tr' te' (predict_types k w tr te σ).2).1
  = (try_k k' w' tr' te' σ).1.
Proof.
  apply try_k_same_inputs.
  apply (steady_related same_inputs), predict_types_same_inputs.
Qed.

End commute.

(** ** The feature frame *)

(** A step that keeps the store either fails, leaving the store as it was,
    or hands its result on, in a world with the same store. *)
Lemma bind_inv_eq {A B} (m : M A) (f : A → M B) σ r σ2 :
  steady eq m → (m ≫= f) σ = (r, σ2) →
  (∃ e, r = inl e ∧ heap σ2 = heap σ)
  ∨ ∃ a σ1, m σ = (inr a, σ1) ∧ heap σ1 = heap σ ∧ f a σ1 = (r, σ2).
Proof.
  intros Hm E. pose proof (steady_related eq m σ Hm) as Hh.
  unfold mbind, M_bind in E. destruct (m σ) as [[e|a] σ1]; cbn in Hh.
  - left. exists e. by simplify_eq.
  - right. by exists a, σ1.
Qed.

Lemma iterrows_length df : length (iterrows df) = nrows df.
Proof. unfold iterrows. by rewrite length_fmap, length_seq. Qed.

Section mapping_more.
Context `{Classifier}.

Lemma df_getitem2_steady r a b : steady eq (df_getitem2 r a b).
Proof. unfold df_getitem2. repeat steady_step. Qed.

Lemma df_getattr_steady r name : steady eq (df_getattr r name).
Proof. unfold df_getattr. repeat steady_step. Qed.

Lemma df_iterrows_steady r : steady eq (df_iterrows r).
Proof. unfold df_iterrows. repeat steady_step. Qed.

Lemma clf_fit_steady k w X y : steady eq (clf_fit k w X y).
Proof. unfold clf_fit. repeat steady_step. Qed.

Lemma geojson_predict_k_loop_steady gen_clf stor_clf rows acc :
  steady eq (for_each rows (geojson_predict_k_body gen_clf stor_clf) acc).
Proof.
  steady_step. unfold geojson_predict_k_body, clf_predict.
  repeat steady_step.
Qed.

(** Each round of the loop adds one label to each list. *)
Lemma geojson_predict_k_loop_lengths gen_clf stor_clf rows :
  ∀ acc σ acc' σ',
    for_each rows (geojson_predict_k_body gen_clf stor_clf) acc σ
    = (inr acc', σ') →
    length acc'.1 = length acc.1 + length rows
    ∧ length acc'.2 = length acc.2 + length rows.
Proof.
  induction rows as [|row rows IH]; intros acc σ acc' σ' E.
  - cbn [for_each] in E. apply ret_inr in E as [-> ->]. cbn. lia.
  - cbn [for_each] in E. apply bind_inr in E as (acc1 & σ1 & E1 & E).
    apply IH in E as [-> ->].
    unfold geojson_predict_k_body, clf_predict in E1. inv_run E1.
    rewrite !length_app. cbn. lia.
Qed.

(** X11: [geojson_predict_k] is all-or-nothing on the store.  When it
    raises, at whatever step, every frame is as it was before the call;
    when it returns, the feature frame has received both columns, each
    with one entry per row, and nothing else has changed. *)
Theorem geojson_predict_k_all_or_nothing geo gen stor k w σ :
  (∀ e, (geojson_predict_k geo gen stor k w σ).1 = inl e →
        heap (geojson_predict_k geo gen stor k w σ).2 = heap σ)
  ∧ ((geojson_predict_k geo gen stor k w σ).1 = inr () →
     ∃ dgeo gens stors,
       heap σ !! geo = Some dgeo
       ∧ length gens = nrows dgeo ∧ length stors = nrows dgeo
       ∧ heap (geojson_predict_k geo gen stor k w σ).2
         = <[geo := with_predictions dgeo gens stors]> (heap σ)).
Proof.
  destruct (geojson_predict_k geo gen stor k w σ) as [r σ2] eqn:E. cbn.
  unfold geojson_predict_k in E.
  apply bind_inv_eq in E as [(e & -> & Hh) | (X_gen & σ1 & _ & Hh1 & E)];
    [by split| |apply df_getitem2_steady].
  apply bind_inv_eq in E as [(e & -> & Hh) | (y_gen & σ1' & _ & Hh1' & E)];
    [split; [intros; congruence | done]| |apply df_getattr_steady].
  apply bind_inv_eq in E as [(e & -> & Hh) | (gen_clf & σ3 & _ & Hh3 & E)];
    [split; [intros; congruence | done]| |apply clf_fit_steady].
  apply bind_inv_eq in E as [(e & -> & Hh) | (X_stor & σ4 & _ & Hh4 & E)];
    [split; [intros; congruence | done]| |apply df_getitem2_steady].
  apply bind_inv_eq in E as [(e & -> & Hh) | (y_stor & σ5 & _ & Hh5 & E)];
    [split; [intros; congruence | done]| |apply df_getattr_steady].
  apply bind_inv_eq in E as [(e & -> & Hh) | (stor_clf & σ6 & _ & Hh6 & E)];
    [split; [intros; congruence | done]| |apply clf_fit_steady].
  apply bind_inv_eq in E as [(e & -> & Hh) | (rows & σ7 & Erows & Hh7 & E)];
    [split; [intros; congruence | done]| |apply df_iterrows_steady].
  apply bind_inv_eq in E as [(e & -> & Hh) | (acc & σ8 & Eloop & Hh8 & E)];
    [split; [intros; congruence | done]|
    |apply geojson_predict_k_loop_steady].
  unfold df_iterrows in Erows. inv_run Erows.
  match goal with Hgeo : heap _ !! geo = Some ?d |- _ =>
    rename Hgeo into Hd; set (dgeo := d) in *
  end.
  apply geojson_predict_k_loop_lengths in Eloop as [Hl1 Hl2].
  rewrite iterrows_length in Hl1, Hl2. cbn in Hl1, Hl2.
  assert (heap σ8 !! geo = Some dgeo) as Hd8 by congruence.
  erewrite bind_ok in E by (by apply (df_setitem_ok _ dgeo)).
  rewrite (df_setitem_ok _ (mkDataFrame (nrows dgeo)
             (<["pred_gen" := acc.1]> (columns dgeo)) (is_copy dgeo))) in E;
    [|cbn; apply lookup_insert_eq | done].
  simplify_eq. split; [done|]. intros _.
  exists dgeo, acc.1, acc.2. split_and!; try done; [congruence|].
  cbn. rewrite insert_insert_eq. unfold with_predictions. congruence.
Qed.

(** X12: a feature frame without rows needs no ['centers'] column: when
    both training tables are accepted, [geojson_predict_k] fits the two
    classifiers, asks them nothing and adds two empty columns. *)
Theorem geojson_predict_k_no_features geo gen stor k w σ dgeo dgen dstor
    gen_clf stor_clf :
  heap σ !! geo = Some dgeo → nrows dgeo = 0 →
  heap σ !! gen = Some dgen → heap σ !! stor = Some dstor →
  labelled dgen → labelled dstor →
  fit k w (coords dgen) (col dgen "type") = inr gen_clf →
  fit k w (coords dstor) (col dstor "type") = inr stor_clf →
  geojson_predict_k geo gen stor k w σ
  = (inr (),
     mkWorld (<[geo := with_predictions dgeo [] []]> (heap σ))
       (trace σ ++ [EvFit k w (coords dgen) (col dgen "type");
                    EvFit k w (coords dstor) (col dstor "type")])).
Proof.
  intros Hgeo Hn Hgen Hstor (_ & Hlat & Hlon & Hty) (_ & Hlat' & Hlon' & Hty')
    Hfg Hfs.
  assert (iterrows dgeo = []) as Hrows.
  { unfold iterrows. by rewrite Hn. }
  unfold geojson_predict_k.
  erewrite bind_ok by (by apply df_getitem2_ok).
  erewrite bind_ok by (by apply df_getattr_ok).
  erewrite bind_ok by (by apply clf_fit_ok).
  erewrite bind_ok by (by apply df_getitem2_ok).
  erewrite bind_ok by (by apply df_getattr_ok).
  erewrite bind_ok by (by apply clf_fit_ok).
  erewrite bind_ok by (by apply df_iterrows_ok).
  rewrite Hrows. cbn [for_each].
  erewrite bind_ok by reflexivity.
  erewrite bind_ok by (by apply (df_setitem_ok _ dgeo)).
  rewrite (df_setitem_ok _ (mkDataFrame (nrows dgeo)
             (<["pred_gen" := []]> (columns dgeo)) (is_copy dgeo)));
    [|cbn; apply lookup_insert_eq | done].
  cbn. by rewrite insert_insert_eq, <- !(assoc_L (++)).
Qed.

End mapping_more.

(** ** The map layer *)

#[local] Instance only_at_preorder geo : PreOrder (only_at geo).
Proof.
  split.
  - by intros h r Hr.
  - intros h1 h2 h3 H12 H23 r Hr. by rewrite H23, H12.
Qed.

Lemma assign_only_at geo df : steady (only_at geo) (assign geo df).
Proof.
  intros h. exists (inr ()), (<[geo := df]> h), []. split.
  - intros r Hr. by rewrite lookup_insert_ne.
  - intros t. unfold assign; cbn. by rewrite app_nil_r.
Qed.

Lemma df_setitem_only_at geo name values :
  steady (only_at geo) (df_setitem geo name values).
Proof.
  unfold df_setitem.
  repeat first [ apply assign_only_at | steady_step ].
Qed.

Section layers.
Context `{Classifier} `{GeoServices}.

Lemma geojson_predict_k_only_at geo gen stor k w :
  steady (only_at geo) (geojson_predict_k geo gen stor k w).
Proof.
  unfold geojson_predict_k, geojson_predict_k_body, df_getitem2, df_getattr,
    df_iterrows, clf_fit, clf_predict.
  repeat first [ apply df_setitem_only_at | steady_step ].
Qed.

(** What [prediction_map_k] does once the feature frame is allocated. *)
Lemma prediction_map_k_rest_only_at geoj k w gen_or_stor geo :
  steady (only_at geo)
    (emit EvGeojsonCenters;;
     df ← deref geo;
     df ← lift (geojson_centers df);
     assign geo df;;
     geojson_predict_k geo gen_data stor_data k w;;
     map_colors ←
       (if String.eqb gen_or_stor "gen" then
          emit (EvPredToColors "gen");;
          df ← deref geo; lift (pred_gen_to_colors df)
        else if String.eqb gen_or_stor "stor" then
          emit (EvPredToColors "stor");;
          df ← deref geo; lift (pred_stor_to_colors df)
        else raise (ValueError "Enter either 'gen' or 'stor'."));
     emit EvFoliumGeoJson;;
     lift (folium_GeoJson geoj (style_function map_colors))).
Proof.
  destruct (String.eqb gen_or_stor "gen"), (String.eqb gen_or_stor "stor");
    repeat first [ apply assign_only_at | apply geojson_predict_k_only_at
                 | steady_step ].
Qed.

(** X13: [prediction_map_k] works on a frame of its own.  Every frame that
    exists when it is called, the two training tables among them, is left
    exactly as it was, whatever the kind and whether the call returns or
    raises. *)
Theorem prediction_map_k_keeps_frames geoj k w gen_or_stor σ r df :
  heap σ !! r = Some df →
  heap (prediction_map_k geoj k w gen_or_stor σ).2 !! r = Some df.
Proof.
  intros Hr. unfold prediction_map_k.
  erewrite bind_ok by reflexivity.
  destruct (geojson_to_df geoj) as [e|d] eqn:Hd.
  { erewrite bind_err by reflexivity. done. }
  erewrite bind_ok by reflexivity.
  erewrite bind_ok by reflexivity.
  set (geo := fresh (dom (heap σ))).
  assert (r ≠ geo) as Hne.
  { intros ->. apply (is_fresh (dom (heap σ))). apply elem_of_dom. by eexists. }
  match goal with |- heap (?m ?σ1).2 !! r = _ =>
    pose proof (steady_related (only_at geo) m σ1
                  (prediction_map_k_rest_only_at geoj k w gen_or_stor geo)) as Hrel
  end.
  rewrite (Hrel r Hne). cbn. by rewrite lookup_insert_ne.
Qed.

(** A [geojson_predict_k] that returns has found the feature frame and
    added the two columns to it. *)
Lemma geojson_predict_k_inv geo gen stor k w σ σ1 :
  geojson_predict_k geo gen stor k w σ = (inr (), σ1) →
  ∃ dgeo gens stors,
    heap σ !! geo = Some dgeo
    ∧ length gens = nrows dgeo ∧ length stors = nrows dgeo
    ∧ heap σ1 = <[geo := with_predictions dgeo gens stors]> (heap σ).
Proof.
  intros E. unfold geojson_predict_k in E.
  apply bind_inv_eq in E as [(e & ? & _) | (X_gen & σa & _ & Ha & E)];
    [done| |apply df_getitem2_steady].
  apply bind_inv_eq in E as [(e & ? & _) | (y_gen & σb & _ & Hb & E)];
    [done| |apply df_getattr_steady].
  apply bind_inv_eq in E as [(e & ? & _) | (gen_clf & σc & _ & Hc & E)];
    [done| |apply clf_fit_steady].
  apply bind_inv_eq in E as [(e & ? & _) | (X_stor & σd & _ & Hd & E)];
    [done| |apply df_getitem2_steady].
  apply bind_inv_eq in E as [(e & ? & _) | (y_stor & σe & _ & He & E)];
    [done| |apply df_getattr_steady].
  apply bind_inv_eq in E as [(e & ? & _) | (stor_clf & σf & _ & Hf & E)];
    [done| |apply clf_fit_steady].
  apply bind_inv_eq in E as [(e & ? & _) | (rows & σg & Erows & Hg & E)];
    [done| |apply df_iterrows_steady].
  apply bind_inv_eq in E as [(e & ? & _) | (acc & σh & Eloop & Hh & E)];
    [done| |apply geojson_predict_k_loop_steady].
  unfold df_iterrows in Erows. inv_run Erows.
  match goal with Hgeo : heap _ !! geo = Some ?d |- _ =>
    rename Hgeo into Hgeo'; set (dgeo := d) in *
  end.
  apply geojson_predict_k_loop_lengths in Eloop as [Hl1 Hl2].
  rewrite iterrows_length in Hl1, Hl2. cbn in Hl1, Hl2.
  assert (heap σh !! geo = Some dgeo) as Hgeo by congruence.
  match goal with H1 : df_setitem geo "pred_gen" _ _ = _ |- _ =>
    rewrite (df_setitem_ok _ dgeo) in H1 by done; simplify_eq
  end.
  rewrite (df_setitem_ok _ (mkDataFrame (nrows dgeo)
             (<["pred_gen" := acc.1]> (columns dgeo)) (is_copy dgeo))) in E;
    [|cbn; apply lookup_insert_eq | done].
  simplify_eq.
  exists dgeo, acc.1, acc.2. split_and!; try done; [congruence|].
  cbn. rewrite insert_insert_eq. unfold with_predictions. congruence.
Qed.

(** X14: for the kinds ['gen'] and ['stor'], when parsing, the centres and
    [geojson_predict_k] succeed, [prediction_map_k] asks for the colour
    table of that kind only, on the feature frame that now carries the two
    prediction columns, and returns the layer folium builds from the geo
    source and the style function of that table; the style of a feature is
    the colour the table holds for the feature's ['id'], with opacity 0.4
    and weight 0. *)
Theorem prediction_map_k_layer geoj k w kind σ df df' σ1 colors layer :
  kind = "gen" ∨ kind = "stor" →
  geojson_to_df geoj = inr df → geojson_centers df = inr df' →
  let geo := fresh (dom (heap σ)) in
  geojson_predict_k geo gen_data stor_data k w
    (mkWorld (<[geo := df']> (heap σ))
       (trace σ ++ [EvGeojsonToDf; EvGeojsonCenters])) = (inr (), σ1) →
  (if String.eqb kind "gen" then pred_gen_to_colors else pred_stor_to_colors)
    (frame_at (heap σ1) geo) = inr colors →
  folium_GeoJson geoj (style_function colors) = inr layer →
  prediction_map_k geoj k w kind σ
  = (inr layer,
     mkWorld (heap σ1) (trace σ1 ++ [EvPredToColors kind; EvFoliumGeoJson]))
  ∧ (∃ gens stors,
       frame_at (heap σ1) geo = with_predictions df' gens stors
       ∧ length gens = nrows df' ∧ length stors = nrows df')
  ∧ (∀ feature s,
       style_function colors feature = inr s →
       fillOpacity s = (4 # 10)%Q ∧ weight s = 0%Z
       ∧ ∃ fid, feature !! "id" = Some fid ∧ colors !! fid = Some (fillColor s)).
Proof.
  intros Hkind Hdf Hdf' geo Hrun Hcolors Hlayer. subst geo.
  remember (fresh (dom (heap σ))) as geo eqn:Hfresh.
  destruct (geojson_predict_k_inv _ _ _ _ _ _ _ Hrun)
    as (dgeo & gens & stors & Hgeo & Hl1 & Hl2 & Hh1).
  cbn in Hgeo. rewrite lookup_insert_eq in Hgeo. injection Hgeo as <-.
  assert (heap σ1 !! geo = Some (frame_at (heap σ1) geo)) as Hgeo1.
  { unfold frame_at. by rewrite Hh1, lookup_insert_eq. }
  split; [|split].
  - unfold prediction_map_k.
    erewrite bind_ok by reflexivity.
    erewrite bind_ok by (unfold lift; by rewrite Hdf).
    erewrite bind_ok by reflexivity.
    cbn [heap trace]. rewrite <- Hfresh.
    erewrite bind_ok by reflexivity.
    erewrite bind_ok
      by (unfold deref; cbn; by rewrite lookup_insert_eq).
    erewrite bind_ok by (unfold lift; by rewrite Hdf').
    erewrite bind_ok by reflexivity.
    cbn [heap trace]. rewrite insert_insert_eq, <- (assoc_L (++)). cbn [app].
    erewrite bind_ok by exact Hrun.
    destruct Hkind as [-> | ->]; cbn [String.eqb Ascii.eqb Bool.eqb] in *.
    + erewrite bind_ok.
      2:{ erewrite bind_ok by reflexivity.
          erewrite bind_ok by (unfold deref; cbn [heap]; by rewrite Hgeo1).
          unfold lift. by rewrite Hcolors. }
      erewrite bind_ok by reflexivity.
      unfold lift. rewrite Hlayer. cbn. by rewrite <- (assoc_L (++)).
    + erewrite bind_ok.
      2:{ erewrite bind_ok by reflexivity.
          erewrite bind_ok by (unfold deref; cbn [heap]; by rewrite Hgeo1).
          unfold lift. by rewrite Hcolors. }
      erewrite bind_ok by reflexivity.
      unfold lift. rewrite Hlayer. cbn. by rewrite <- (assoc_L (++)).
  - exists gens, stors. split; [|done].
    unfold frame_at. by rewrite Hh1, lookup_insert_eq.
  - intros feature s Hs. unfold style_function in Hs.
    destruct (feature !! "id") as [fid|]; [|done].
    destruct (colors !! fid) as [color|] eqn:Hc; [|done].
    simplify_eq. cbn. eauto.
Qed.

End layers.

(** * Concrete runs

    The statements above at the example tables, with the exact
    nearest-neighbour classifier and the point-list geo source. *)

(** The scenario of the specification: three training points of types A, A
    and B, K = 1 and uniform weights; a test table made of one of the A
    points is labelled A, and the testing error is 0. *)
Example try_k_scenario :
  let test1 := table [1]%Q [0]%Q ["A"] in
  let σ := mkWorld {[ 1%positive := train3; 2%positive := test1 ]} [] in
  ExactKNN.knn_predict (knn_train3 1 "uniform") (coords test1) = inr [CStr "A"]
  ∧ ∃ e, (try_k 1 "uniform" 1%positive 2%positive σ).1 = inr e ∧ (e.2 == 0)%Q.
Proof. cbv zeta. split; [by vm_compute|]. vm_compute. eexists. split; done. Qed.

(** The classifier refuses more neighbours than it has samples. *)
Example try_k_too_many_neighbours :
  (try_k 5 "uniform" 1%positive 2%positive world0).1
  = inl (ValueError "Expected n_neighbors <= n_samples_fit").
Proof. by vm_compute. Qed.

(** With [k_max = 5] the classifier is fitted for K = 1, 2, 3, 4. *)
Example plot_knn_error_5 :
  fit_ks (trace (plot_knn_error 5 "uniform" 1%positive 2%positive world5).2)
  = [1; 2; 3; 4]%Z.
Proof. by vm_compute. Qed.

(** The error rates of [try_k] for K = 1 on [train3] and [test2]. *)
Lemma try_k_error_rates_witness :
  ∃ train_error test_error,
    (try_k 1 "uniform" 1%positive 2%positive world0).1
    = inr (train_error, test_error)
    ∧ train_error = error_rate train3 [CStr "A"; CStr "A"; CStr "B"]
    ∧ test_error = error_rate test2 [CStr "A"; CStr "B"]
    ∧ (0 <= train_error <= 1)%Q ∧ (0 <= test_error <= 1)%Q.
Proof.
  apply (try_k_error_rates (H:=ExactKNN.classifier) 1 "uniform" 1%positive 2%positive world0
           train3 test2 (knn_train3 1 "uniform")).
  - lia.
  - by left.
  - reflexivity.
  - reflexivity.
  - compute_done.
  - compute_done.
  - vm_compute; lia.
  - vm_compute; lia.
  - by vm_compute.
  - by vm_compute.
  - by vm_compute.
Defined.

(** The error table for the K values 2, 1, 2, a repeated value included. *)
Lemma try_k_range_table_witness :
  ∃ errors σ',
    try_k_range [2; 1; 2]%Z "distance" 1%positive 2%positive world0
    = (inr errors, σ')
    ∧ shape errors = (3, 3)
    ∧ length (data errors) = 3
    ∧ nd_col errors 0 = [2; 1; 2]%Q
    ∧ data errors =
      (λ k, error_row k (try_k k "distance" 1%positive 2%positive world0).1)
        <$> [2; 1; 2]%Z
    ∧ heap σ' = heap world0
    ∧ trace σ' =
      trace world0
      ++ ([2; 1; 2]%Z ≫= try_k_calls (heap world0) "distance" 1%positive 2%positive)
    ∧ fit_ks ([2; 1; 2]%Z
              ≫= try_k_calls (heap world0) "distance" 1%positive 2%positive)
      = [2; 1; 2]%Z.
Proof.
  apply (try_k_range_table [2; 1; 2]%Z "distance" 1%positive 2%positive world0).
  intros k Hk.
  assert (k = 2 ∨ k = 1)%Z as [-> | ->]
    by (rewrite !elem_of_cons, elem_of_nil in Hk; tauto).
  - vm_compute. by eexists.
  - vm_compute. by eexists.
Defined.

(** The plot for [k_max = 5] on a training table of five rows. *)
Lemma plot_knn_error_ks_witness :
  ∃ σ' evs,
    plot_knn_error 5 "uniform" 1%positive 2%positive world5 = (inr (), σ')
    ∧ trace σ' = trace world5 ++ evs
    ∧ (∀ i k, fit_ks evs !! i = Some k
              ↔ k = (1 + Z.of_nat i)%Z ∧ (Z.of_nat i < 5 - 1)%Z)
    ∧ length (fit_ks evs) = Z.to_nat (5 - 1)
    ∧ (5%Z ∉ fit_ks evs)
    ∧ scatter_xs evs = [inject_Z <$> fit_ks evs; inject_Z <$> fit_ks evs].
Proof.
  apply (plot_knn_error_ks 5 "uniform" 1%positive 2%positive world5).
  intros k Hk.
  assert (k = 1 ∨ k = 2 ∨ k = 3 ∨ k = 4)%Z as [-> | [-> | [-> | ->]]] by lia.
  - vm_compute. by eexists.
  - vm_compute. by eexists.
  - vm_compute. by eexists.
  - vm_compute. by eexists.
Defined.

(** The labels [predict_types] writes for K = 1 on [train3] and [test2]. *)
Lemma predict_types_labels_witness :
  ∃ σ',
    predict_types 1 "uniform" 1%positive 2%positive world0 = (inr (), σ')
    ∧ trace σ' =
      trace world0 ++ [EvFit 1 "uniform" (coords train3) (col train3 "type");
                       EvPredict (coords train3); EvPredict (coords test2)]
    ∧ heap σ' =
      <[2%positive := with_pred test2 [CStr "A"; CStr "B"]]>
        (<[1%positive := with_pred train3 [CStr "A"; CStr "A"; CStr "B"]]>
           (heap world0))
    ∧ columns (frame_at (heap σ') 1%positive) !! "pred"
      = Some [CStr "A"; CStr "A"; CStr "B"]
    ∧ columns (frame_at (heap σ') 2%positive) !! "pred"
      = Some [CStr "A"; CStr "B"].
Proof.
  apply (predict_types_labels (H:=ExactKNN.classifier) 1 "uniform" 1%positive 2%positive world0
           train3 test2 (knn_train3 1 "uniform")).
  - reflexivity.
  - reflexivity.
  - compute_done.
  - compute_done.
  - compute_done.
  - compute_done.
  - by vm_compute.
  - by vm_compute.
  - by vm_compute.
Defined.

(** What [predict_types] leaves of [test2]. *)
Lemma predict_types_frame_witness :
  ∃ df',
    heap (predict_types 1 "uniform" 1%positive 2%positive world0).2 !! 2%positive
    = Some df'
    ∧ nrows df' = nrows test2
    ∧ ∀ c, c ≠ "pred" → columns df' !! c = columns test2 !! c.
Proof.
  apply (predict_types_frame 1 "uniform" 1%positive 2%positive world0
           2%positive test2).
  reflexivity.
Defined.

(** The two columns added to [features2], with [train3] as generation
    table and [test2] as storage table. *)
Lemma geojson_predict_k_columns_witness :
  let pts := [(0, 0); (5, 4)]%Q in
  let gens := [CStr "A"; CStr "B"] in
  let stors := [CStr "A"; CStr "A"] in
  ∃ σ',
    geojson_predict_k 3%positive 1%positive 2%positive 1 "uniform" world0
    = (inr (), σ')
    ∧ heap σ' =
      <[3%positive := with_predictions features2 gens stors]> (heap world0)
    ∧ trace σ' =
      trace world0
      ++ [EvFit 1 "uniform" (coords train3) (col train3 "type");
          EvFit 1 "uniform" (coords test2) (col test2 "type")]
      ++ (pts ≫= λ p, [EvPredict (query p); EvPredict (query p)])
    ∧ (∀ i p, pts !! i = Some p →
         col features2 "centers" !! i = Some (center_cell p)
         ∧ ∃ g s, gens !! i = Some g ∧ stors !! i = Some s
                  ∧ ExactKNN.knn_predict (knn_train3 1 "uniform") (query p) = inr [g]
                  ∧ ExactKNN.knn_predict (knn_test2 1 "uniform") (query p) = inr [s]).
Proof.
  cbv zeta.
  apply (geojson_predict_k_columns (H:=ExactKNN.classifier) 3%positive 1%positive 2%positive 1
           "uniform" world0 features2 train3 test2).
  - reflexivity.
  - reflexivity.
  - reflexivity.
  - compute_done.
  - compute_done.
  - compute_done.
  - reflexivity.
  - by vm_compute.
  - by vm_compute.
  - repeat constructor; by vm_compute.
  - repeat constructor; by vm_compute.
Defined.

(** With the kind ['bogus'] the error comes after the source has been
    parsed, the centres computed, both classifiers fitted and every feature
    labelled by both: the call does not fail at once. *)
Lemma prediction_map_k_bogus_fits_first :
  let run :=
    prediction_map_k [("WA", (0, 0)%Q); ("NY", (5, 4)%Q)] 1 "uniform" "bogus"
      world0 in
  run.1 = inl (ValueError "Enter either 'gen' or 'stor'.")
  ∧ trace world0 = []
  ∧ trace run.2 =
    [EvGeojsonToDf; EvGeojsonCenters;
     EvFit 1 "uniform" (coords train3) (col train3 "type");
     EvFit 1 "uniform" (coords test2) (col test2 "type");
     EvPredict (query (0, 0)%Q); EvPredict (query (0, 0)%Q);
     EvPredict (query (5, 4)%Q); EvPredict (query (5, 4)%Q)]
  ∧ fit_ks (trace run.2) = [1; 1]%Z
  ∧ run.2 ≠ world0.
Proof.
  cbv zeta. split_and!; by vm_compute.
Qed.

(** The run with the kind ['bogus'] on a source of two features. *)
Lemma prediction_map_k_invalid_kind_witness :
  let geoj := [("WA", (0, 0)%Q); ("NY", (5, 4)%Q)] in
  let run := prediction_map_k geoj 1 "uniform" "bogus" world0 in
  let geo := fresh (dom (heap world0)) in
  (∃ e, run.1 = inl e)
  ∧ (∃ evs, trace run.2 = trace world0 ++ EvGeojsonToDf :: evs
            ∧ Forall (λ ev, ¬ rendering_call ev) evs)
  ∧ (∀ e, geojson_to_df geoj = inl e →
       run = (inl e, mkWorld (heap world0) (trace world0 ++ [EvGeojsonToDf])))
  ∧ (∀ df e,
       geojson_to_df geoj = inr df → geojson_centers df = inl e →
       run = (inl e, mkWorld (<[geo := df]> (heap world0))
                       (trace world0 ++ [EvGeojsonToDf; EvGeojsonCenters])))
  ∧ (∀ df df' e σ1,
       geojson_to_df geoj = inr df → geojson_centers df = inr df' →
       geojson_predict_k geo gen_data stor_data 1 "uniform"
         (mkWorld (<[geo := df']> (heap world0))
            (trace world0 ++ [EvGeojsonToDf; EvGeojsonCenters])) = (inl e, σ1) →
       run = (inl e, σ1))
  ∧ (∀ df df' σ1,
       geojson_to_df geoj = inr df → geojson_centers df = inr df' →
       geojson_predict_k geo gen_data stor_data 1 "uniform"
         (mkWorld (<[geo := df']> (heap world0))
            (trace world0 ++ [EvGeojsonToDf; EvGeojsonCenters])) = (inr (), σ1) →
       run = (inl (ValueError "Enter either 'gen' or 'stor'."), σ1)
       ∧ ∃ evs, trace σ1 = trace world0 ++ [EvGeojsonToDf; EvGeojsonCenters] ++ evs
                ∧ fit_ks evs = [1; 1]%Z).
Proof.
  apply (prediction_map_k_invalid_kind (H:=ExactKNN.classifier)
           (H0:=PointGeo.services)
           [("WA", (0, 0)%Q); ("NY", (5, 4)%Q)] 1 "uniform" "bogus" world0).
  - done.
  - done.
Defined.

(** One line for each of the two types of [train5]. *)
Lemma count_types_lines_witness :
  ∃ lines,
    count_types train5 [] = (inr (), [] ++ lines)
    ∧ lines.*1 = unique (CStr <$> ["A"; "A"; "B"; "B"; "A"])
    ∧ distinct lines.*1
    ∧ Forall (λ l, l.2 = count_rows (CStr <$> ["A"; "A"; "B"; "B"; "A"]) l.1
                   ∧ 1 ≤ l.2) lines
    ∧ (∀ v, In v (CStr <$> ["A"; "A"; "B"; "B"; "A"]) →
         ∃ l, In l lines ∧ cell_eqb v l.1 = true)
    ∧ sum_list lines.*2 = nrows train5.
Proof.
  apply (count_types_lines train5 (CStr <$> ["A"; "A"; "B"; "B"; "A"]) []).
  - compute_done.
  - reflexivity.
  - repeat constructor.
Defined.

(** The predicted types of [test2], labelled from [train3] with K = 1,
    counted. *)
Lemma count_pred_types_after_predict_types_witness :
  let σ' := (predict_types 1 "uniform" 1%positive 2%positive world0).2 in
  (∀ df, columns df !! "pred" = None →
     count_pred_types df [] = (inl (AttributeError "pred"), []))
  ∧ ∃ df' lines,
      heap σ' !! 2%positive = Some df'
      ∧ count_pred_types df' [] = (inr (), [] ++ lines)
      ∧ lines.*1 = unique (col df' "pred")
      ∧ distinct lines.*1
      ∧ sum_list lines.*2 = nrows df'.
Proof.
  apply (count_pred_types_after_predict_types (H:=ExactKNN.classifier)
           1 "uniform" 1%positive 2%positive world0).
  - by vm_compute.
  - by right.
Defined.

(** [try_k] after [predict_types] on [train3] and [test2]. *)
Lemma try_k_after_predict_types_witness :
  let σ' := (predict_types 1 "uniform" 1%positive 2%positive world0).2 in
  ∃ dtr' dte',
    heap σ' !! 1%positive = Some dtr' ∧ heap σ' !! 2%positive = Some dte'
    ∧ (try_k 1 "uniform" 1%positive 2%positive σ').1
      = inr (error_rate dtr' (col dtr' "pred"), error_rate dte' (col dte' "pred")).
Proof.
  apply (try_k_after_predict_types (H:=ExactKNN.classifier)
           1 "uniform" 1%positive 2%positive world0 _ train3 test2).
  - by vm_compute.
  - reflexivity.
  - reflexivity.
  - compute_done.
  - compute_done.
  - by eexists.
  - vm_compute; lia.
  - vm_compute; lia.
Defined.

(** The training table is labelled although the test table has no ['lat']
    column. *)
Lemma predict_types_partial_witness :
  ∃ e σ',
    predict_types 1 "uniform" 1%positive 2%positive world_no_lat = (inl e, σ')
    ∧ (e = KeyError "lat" ∨ e = KeyError "lon")
    ∧ heap σ' !! 1%positive
      = Some (with_pred train3 [CStr "A"; CStr "A"; CStr "B"])
    ∧ heap σ' !! 2%positive = Some (set_is_copy test_no_lat false)
    ∧ columns (set_is_copy test_no_lat false) !! "pred"
      = columns test_no_lat !! "pred"
    ∧ trace σ' = trace world_no_lat
                 ++ [EvFit 1 "uniform" (coords train3) (col train3 "type");
                     EvPredict (coords train3)].
Proof.
  apply (predict_types_partial (H:=ExactKNN.classifier)
           1 "uniform" 1%positive 2%positive world_no_lat train3 test_no_lat
           (knn_train3 1 "uniform")).
  - done.
  - reflexivity.
  - reflexivity.
  - compute_done.
  - by left.
  - by vm_compute.
  - by vm_compute.
Defined.

(** A training table without ['lat']: the three functions raise the same
    error and leave the world as it was. *)
Lemma missing_training_column_witness :
  ∃ e,
    (e = KeyError "lat" ∨ e = KeyError "lon" ∨ e = AttributeError "type")
    ∧ try_k 1 "uniform" 2%positive 1%positive world_no_lat
      = (inl e, world_no_lat)
    ∧ predict_types 1 "uniform" 2%positive 1%positive world_no_lat
      = (inl e, world_no_lat)
    ∧ geojson_predict_k 3%positive 2%positive 1%positive 1 "uniform"
        world_no_lat = (inl e, world_no_lat).
Proof.
  apply (missing_training_column (H:=ExactKNN.classifier)
           1 "uniform" 2%positive 1%positive 3%positive 1%positive
           world_no_lat test_no_lat).
  - by left.
  - reflexivity.
  - by left.
Defined.

(** K = 5 is too many neighbours for [train3]: the range 1, 5, 2 stops
    there. *)
Lemma try_k_range_first_failure_witness :
  ∃ σ' evs,
    try_k_range [1; 5; 2]%Z "uniform" 1%positive 2%positive world0
    = (inl (ValueError "Expected n_neighbors <= n_samples_fit"), σ')
    ∧ heap σ' = heap world0
    ∧ trace σ' = trace world0 ++ evs
    ∧ (fit_ks evs = take 1 [1; 5; 2]%Z ∨ fit_ks evs = take 2 [1; 5; 2]%Z).
Proof.
  apply (try_k_range_first_failure (H:=ExactKNN.classifier)
           [1; 5; 2]%Z "uniform" 1%positive 2%positive world0 1 5%Z).
  - reflexivity.
  - intros j k' Hj Hk'. destruct j as [|j]; [|lia].
    cbn in Hk'. injection Hk' as <-. vm_compute. by eexists.
  - by vm_compute.
Defined.

(** The error table of [train3] and [test2] for K = 1, 2, 3. *)
Lemma try_k_range_bounds_witness :
  ∃ errors σ',
    try_k_range [1; 2; 3]%Z "uniform" 1%positive 2%positive world0
    = (inr errors, σ')
    ∧ length (nd_col errors 1) = length [1; 2; 3]%Z
    ∧ length (nd_col errors 2) = length [1; 2; 3]%Z
    ∧ Forall (λ x, (0 <= x <= 1)%Q) (nd_col errors 1)
    ∧ Forall (λ x, (0 <= x <= 1)%Q) (nd_col errors 2).
Proof.
  apply (try_k_range_bounds (H:=ExactKNN.classifier)
           [1; 2; 3]%Z "uniform" 1%positive 2%positive world0 train3 test2).
  - reflexivity.
  - reflexivity.
  - compute_done.
  - compute_done.
  - vm_compute; lia.
  - vm_compute; lia.
  - intros k Hk.
    assert (k = 1 ∨ k = 2 ∨ k = 3)%Z as [-> | [-> | ->]]
      by (rewrite !elem_of_cons, elem_of_nil in Hk; tauto).
    + vm_compute. by eexists.
    + vm_compute. by eexists.
    + vm_compute. by eexists.
Defined.

(** The plot for [k_max = 4] on [train3] and [test2]: the training error
    is 0 for K = 1 and 2 and 1/3 for K = 3, the testing error 1/2 for K = 1
    and 2 and 0 for K = 3. *)
Lemma plot_knn_error_inside_axes_witness :
  let errs := [(0 # 3, 1 # 2); (0 # 3, 1 # 2); (1 # 3, 0 # 2)]%Q in
  let ks := py_range 1 4 in
  let xs := inject_Z <$> ks in
  plot_knn_error 4 "uniform" 1%positive 2%positive world0
  = (inr (),
     mkWorld (heap world0)
       (trace world0
        ++ (ks ≫= try_k_calls (heap world0) "uniform" 1%positive 2%positive)
        ++ [EvPlt (PltFigure 4 4);
            EvPlt (PltScatter xs errs.*1 "red" "Training error");
            EvPlt (PltScatter xs errs.*2 "blue" "Testing error");
            EvPlt (PltXlabel "K"); EvPlt (PltYlabel "Error rate");
            EvPlt (PltYlim 0 1); EvPlt (PltXlim 0 (4 + 1));
            EvPlt PltLegend]))
  ∧ length xs = Z.to_nat (4 - 1)
  ∧ length errs.*1 = length xs ∧ length errs.*2 = length xs
  ∧ Forall (λ x, (0 < x)%Q ∧ (x < inject_Z (4 + 1))%Q) xs
  ∧ Forall (λ y, (0 <= y <= 1)%Q) errs.*1
  ∧ Forall (λ y, (0 <= y <= 1)%Q) errs.*2.
Proof.
  apply (plot_knn_error_inside_axes (H:=ExactKNN.classifier)
           4 "uniform" 1%positive 2%positive world0
           [(0 # 3, 1 # 2); (0 # 3, 1 # 2); (1 # 3, 0 # 2)]%Q).
  repeat constructor; by vm_compute.
Defined.

(** With [k_max = 1] the plot is empty. *)
Lemma plot_knn_error_no_k_witness :
  plot_knn_error 1 "uniform" 1%positive 2%positive world0
  = (inr (),
     mkWorld (heap world0)
       (trace world0 ++ [EvPlt (PltFigure 4 4);
                         EvPlt (PltScatter [] [] "red" "Training error");
                         EvPlt (PltScatter [] [] "blue" "Testing error");
                         EvPlt (PltXlabel "K"); EvPlt (PltYlabel "Error rate");
                         EvPlt (PltYlim 0 1); EvPlt (PltXlim 0 (1 + 1));
                         EvPlt PltLegend])).
Proof.
  apply (plot_knn_error_no_k (H:=ExactKNN.classifier)
           1 "uniform" 1%positive 2%positive world0).
  lia.
Defined.

(** A feature frame without rows gets two empty columns. *)
Lemma geojson_predict_k_no_features_witness :
  geojson_predict_k 3%positive 1%positive 2%positive 1 "uniform"
    world_no_features
  = (inr (),
     mkWorld (<[3%positive := with_predictions features0 [] []]>
                (heap world_no_features))
       (trace world_no_features
        ++ [EvFit 1 "uniform" (coords train3) (col train3 "type");
            EvFit 1 "uniform" (coords test2) (col test2 "type")])).
Proof.
  apply (geojson_predict_k_no_features (H:=ExactKNN.classifier)
           3%positive 1%positive 2%positive 1 "uniform" world_no_features
           features0 train3 test2 (knn_train3 1 "uniform")
           (knn_test2 1 "uniform")).
  - reflexivity.
  - reflexivity.
  - reflexivity.
  - reflexivity.
  - compute_done.
  - compute_done.
  - by vm_compute.
  - by vm_compute.
Defined.

(** The training table is still there after the map has been made. *)
Lemma prediction_map_k_keeps_frames_witness :
  heap (prediction_map_k [("WA", (0, 0)%Q); ("NY", (5, 4)%Q)] 1 "uniform"
          "gen" world0).2 !! 1%positive
  = Some train3.
Proof.
  apply (prediction_map_k_keeps_frames (H:=ExactKNN.classifier)
           (H0:=PointGeo.services)
           [("WA", (0, 0)%Q); ("NY", (5, 4)%Q)] 1 "uniform" "gen" world0
           1%positive train3).
  reflexivity.
Defined.

(** The generation map of a source of two features. *)
Lemma prediction_map_k_layer_witness :
  let geoj := [("WA", (0, 0)%Q); ("NY", (5, 4)%Q)] in
  let df' :=
    mkDataFrame 2
      {[ "id" := [CStr "WA"; CStr "NY"];
         "point" := center_cell <$> [(0, 0); (5, 4)]%Q;
         "centers" := center_cell <$> [(0, 0); (5, 4)]%Q ]} None in
  let geo := fresh (dom (heap world0)) in
  let σ1 :=
    (geojson_predict_k geo gen_data stor_data 1 "uniform"
       (mkWorld (<[geo := df']> (heap world0))
          (trace world0 ++ [EvGeojsonToDf; EvGeojsonCenters]))).2 in
  let colors : gmap string string := {[ "WA" := "A"; "NY" := "B" ]} in
  prediction_map_k geoj 1 "uniform" "gen" world0
  = (inr [inr (mkStyle "A" (4 # 10) 0); inr (mkStyle "B" (4 # 10) 0)],
     mkWorld (heap σ1) (trace σ1 ++ [EvPredToColors "gen"; EvFoliumGeoJson]))
  ∧ (∃ gens stors,
       frame_at (heap σ1) geo = with_predictions df' gens stors
       ∧ length gens = nrows df' ∧ length stors = nrows df')
  ∧ (∀ feature s,
       style_function colors feature = inr s →
       fillOpacity s = (4 # 10)%Q ∧ weight s = 0%Z
       ∧ ∃ fid, feature !! "id" = Some fid ∧ colors !! fid = Some (fillColor s)).
Proof.
  apply (prediction_map_k_layer (H:=ExactKNN.classifier)
           (H0:=PointGeo.services)
           [("WA", (0, 0)%Q); ("NY", (5, 4)%Q)] 1 "uniform" "gen" world0
           (mkDataFrame 2
              {[ "id" := [CStr "WA"; CStr "NY"];
                 "point" := center_cell <$> [(0, 0); (5, 4)]%Q ]} None)).
  - by left.
  - by vm_compute.
  - by vm_compute.
  - by vm_compute.
  - by vm_compute.
  - by vm_compute.
Defined.
